(** * Meshtastic firmware upgrade helper: release, asset and image resolution

    A shallow embedding of [meshtastic_upgrade.py] and the properties of its
    resolution engine ([find_release], [pick_asset_for_platform],
    [resolve_board_image]) and of the two-step flash sequence at the end of
    [main].

    Conventions of the model.
    - Python [str] values are [string]s; file names and tags are taken to be
      ASCII, so that [re.IGNORECASE] folds exactly the letters A-Z.
    - An exception is a value of [exn]; a function that may raise returns a
      [result].
    - The console, the process table and the release feed are explicit
      arguments: nothing is ambient. *)

From Stdlib Require Import Strings.String Strings.Ascii Lists.List ZArith.ZArith
  Bool.Bool Arith.PeanoNat micromega.Lia Sorting.Permutation Sorting.Sorted
  Numbers.DecimalString.
Import ListNotations.

Local Open Scope string_scope.
Local Open Scope list_scope.

Set Implicit Arguments.

(* ================================================================== *)
(** * The Python builtins the script relies on *)

Module Py.

(** The argument of [sys.exit] / [SystemExit]: a message or a status. *)
Inductive exit_arg : Type :=
| ExitMsg (msg : string)
| ExitCode (code : Z).

Inductive exn : Type :=
| SystemExit (arg : exit_arg)
| HTTPError (status : Z)
| URLError
| TypeError
| IndexError
| EOFError.

Inductive result (A : Type) : Type :=
| Ok (a : A)
| Raise (e : exn).
Arguments Ok {A} a.
Arguments Raise {A} e.

(** Lower case of an ASCII character: A-Z go to a-z. *)
Definition lower (c : ascii) : ascii :=
  let n := nat_of_ascii c in
  if (65 <=? n)%nat && (n <=? 90)%nat then ascii_of_nat (n + 32) else c.

(** [s.lower()]. *)
Fixpoint str_lower (s : string) : string :=
  match s with
  | EmptyString => EmptyString
  | String c rest => String (lower c) (str_lower rest)
  end.

(** Two strings are equal up to the case of their letters. *)
Definition ci_eq (a b : string) : Prop := str_lower a = str_lower b.

(** [c in chars] for a character and a string of characters. *)
Fixpoint chr_in (c : ascii) (chars : string) : bool :=
  match chars with
  | EmptyString => false
  | String d rest => Ascii.eqb c d || chr_in c rest
  end.

(** [s.lstrip(chars)]: drop every leading character that occurs in [chars]. *)
Fixpoint lstrip (chars s : string) : string :=
  match s with
  | EmptyString => EmptyString
  | String c rest => if chr_in c chars then lstrip chars rest else s
  end.

(** Truthiness of a [str]: the empty string is false. *)
Definition truthy (s : string) : bool := negb (s =? "")%string.

(** [sub in s] for strings: [sub] occurs in [s] as a contiguous substring. *)
Fixpoint str_in (sub s : string) : bool :=
  String.prefix sub s ||
  match s with
  | EmptyString => false
  | String _ rest => str_in sub rest
  end.

(** [s.endswith(suffix)]. *)
Definition endswith (s suffix : string) : bool :=
  (String.length suffix <=? String.length s)%nat &&
  (String.substring (String.length s - String.length suffix)
                    (String.length suffix) s =? suffix)%string.

(** The ASCII characters [str.strip()] removes. *)
Definition isspace (c : ascii) : bool :=
  let n := nat_of_ascii c in
  ((9 <=? n)%nat && (n <=? 13)%nat) || ((28 <=? n)%nat && (n <=? 32)%nat).

Fixpoint lstrip_space (l : list ascii) : list ascii :=
  match l with
  | [] => []
  | c :: rest => if isspace c then lstrip_space rest else l
  end.

(** [s.strip()]. *)
Definition strip (s : string) : string :=
  string_of_list_ascii
    (rev (lstrip_space (rev (lstrip_space (list_ascii_of_string s))))).

(** [sep.join(xs)]. *)
Definition join (sep : string) (xs : list string) : string :=
  String.concat sep xs.

(** [str(n)] for an integer. *)
Definition str_of_int (n : Z) : string :=
  NilZero.string_of_int (Z.to_int n).

(** [list.sort] and [sorted] are stable.  [before y x] says that [y] has to
    be placed strictly ahead of [x]; an element is inserted in front of the
    first element that does not have to precede it, so elements that
    compare equal keep the order they had in the input. *)
Fixpoint insert_stable {A : Type} (before : A -> A -> bool) (x : A)
         (l : list A) : list A :=
  match l with
  | [] => [x]
  | y :: ys =>
      if before y x then y :: insert_stable before x ys else x :: y :: ys
  end.

Definition stable_sort {A : Type} (before : A -> A -> bool) (l : list A)
  : list A :=
  fold_right (insert_stable before) [] l.

(** [l.sort(key=key, reverse=True)] for keys ordered by [ltb]: descending,
    stable. *)
Definition sort_key_reverse {A K : Type} (ltb : K -> K -> bool)
           (key : A -> K) (l : list A) : list A :=
  stable_sort (fun y x => ltb (key x) (key y)) l.

(** [sorted(l)] for elements ordered by [ltb]: ascending, stable. *)
Definition sorted {A : Type} (ltb : A -> A -> bool) (l : list A) : list A :=
  stable_sort ltb l.

End Py.
Import Py.

(* ================================================================== *)
(** * Regular expressions, as far as the script's patterns go *)

Module Regex.

(** The fragment of [re] syntax that occurs in the three patterns of the
    script: literal characters, [.], [*], concatenation and a final [$]. *)
Inductive re : Type :=
| Void
| Eps
| Chr (c : ascii)
| Dot
| Cat (r1 r2 : re)
| Alt (r1 r2 : re)
| Star (r : re).

Definition newline : ascii := "010"%char.

(** A pattern character against a subject character; [ic] is the
    [re.IGNORECASE] flag. *)
Definition chr_matches (ic : bool) (c x : ascii) : bool :=
  if ic then Ascii.eqb (lower c) (lower x) else Ascii.eqb c x.

(** Without [re.DOTALL], [.] matches anything but a newline. *)
Definition dot_matches (x : ascii) : bool := negb (Ascii.eqb x newline).

Fixpoint nullable (r : re) : bool :=
  match r with
  | Void => false
  | Eps => true
  | Chr _ => false
  | Dot => false
  | Cat r1 r2 => nullable r1 && nullable r2
  | Alt r1 r2 => nullable r1 || nullable r2
  | Star _ => true
  end.

(** Derivative of [r] by the subject character [x]. *)
Fixpoint deriv (ic : bool) (x : ascii) (r : re) : re :=
  match r with
  | Void => Void
  | Eps => Void
  | Chr c => if chr_matches ic c x then Eps else Void
  | Dot => if dot_matches x then Eps else Void
  | Cat r1 r2 =>
      if nullable r1
      then Alt (Cat (deriv ic x r1) r2) (deriv ic x r2)
      else Cat (deriv ic x r1) r2
  | Alt r1 r2 => Alt (deriv ic x r1) (deriv ic x r2)
  | Star r1 => Cat (deriv ic x r1) (Star r1)
  end.

Fixpoint matches (ic : bool) (r : re) (w : list ascii) : bool :=
  match w with
  | [] => nullable r
  | x :: w' => matches ic (deriv ic x r) w'
  end.

(** The pattern a literal string stands for; this is what
    [re.escape(s)] compiles to. *)
Fixpoint lit (s : string) : re :=
  match s with
  | EmptyString => Eps
  | String c rest => Cat (Chr c) (lit rest)
  end.

(** [$] at the end of a pattern (no [re.MULTILINE]): the end of the
    subject, or just before a newline that ends the subject. *)
Definition dollar : re := Alt Eps (Chr newline).

(** Concatenation of the pieces of a pattern, left to right. *)
Definition seq (rs : list re) : re := fold_right Cat Eps rs.

(** A compiled pattern: its expression and its flags. *)
Record pattern : Type := Pattern { expr : re; ignorecase : bool }.

(** [pat.match(s)] as a truth value.  The three patterns all end in [$],
    so a match at the start of the subject is a match of all of it. *)
Definition re_match (pat : pattern) (s : string) : bool :=
  matches (ignorecase pat) (expr pat) (list_ascii_of_string s).

(** What the matcher decides: the words of [r]. *)
Inductive lang (ic : bool) : re -> list ascii -> Prop :=
| L_eps : lang ic Eps []
| L_chr c x : chr_matches ic c x = true -> lang ic (Chr c) [x]
| L_dot x : dot_matches x = true -> lang ic Dot [x]
| L_cat r1 r2 w1 w2 :
    lang ic r1 w1 -> lang ic r2 w2 -> lang ic (Cat r1 r2) (w1 ++ w2)
| L_alt_l r1 r2 w : lang ic r1 w -> lang ic (Alt r1 r2) w
| L_alt_r r1 r2 w : lang ic r2 w -> lang ic (Alt r1 r2) w
| L_star_nil r : lang ic (Star r) []
| L_star_cons r w1 w2 :
    lang ic r w1 -> lang ic (Star r) w2 -> lang ic (Star r) (w1 ++ w2).

End Regex.
Import Regex.

(* ================================================================== *)
(** * Data model *)

(** An entry of a release's ["assets"] array. *)
Record Asset : Type := mkAsset {
  asset_name : string;            (* a.get("name", "") *)
  asset_size : Z;                 (* a.get("size", 0) *)
  browser_download_url : string
}.

(** A release object of the GitHub API, with the keys the script reads. *)
Record Release : Type := mkRelease {
  tag_name : string;
  prerelease : bool;
  draft : bool;
  created_at : option string;
  published_at : option string;
  assets : list Asset
}.

(** A [pathlib.Path]: its components; [name] is the last one. *)
Record Path : Type := mkPath { parts : list string }.

Definition name (p : Path) : string := last (parts p) "".

(* ================================================================== *)
(** * ImageResolver: [resolve_board_image] *)

(** [version = (tag_name or "").lstrip("v")] *)
Definition version_of (tag : string) : string := lstrip "v" tag.

(** [^firmware-<board>-<version>-update\.bin$], [re.IGNORECASE] *)
Definition strict_pattern (board version : string) : pattern :=
  Pattern
    (seq [lit "firmware-"; lit board; lit "-"; lit version;
          lit "-update"; lit "."; lit "bin"; dollar])
    true.

(** [^firmware-<board>-.*-update\.bin$], [re.IGNORECASE] *)
Definition loose_pattern (board : string) : pattern :=
  Pattern
    (seq [lit "firmware-"; lit board; lit "-"; Star Dot;
          lit "-update"; lit "."; lit "bin"; dollar])
    true.

(** [strict = re.compile(...) if version else None] *)
Definition strict (board version : string) : option pattern :=
  if truthy version then Some (strict_pattern board version) else None.

(** The first loop: the first image the strict pattern matches, if the
    pattern exists. *)
Definition strict_phase (images : list Path) (board version : string)
  : option Path :=
  match strict board version with
  | Some pat => find (fun p => re_match pat (name p)) images
  | None => None
  end.

(** [candidates = [p for p in images if loose.match(p.name)]] *)
Definition loose_candidates (images : list Path) (board : string) : list Path :=
  filter (fun p => re_match (loose_pattern board) (name p)) images.

(** Everything after the first loop. *)
Definition loose_phase (images : list Path) (board version : string)
  : option Path :=
  let candidates := loose_candidates images board in
  if (length candidates =? 1)%nat then nth_error candidates 0
  else if (1 <? length candidates)%nat then
    if truthy version
    then find (fun p => str_in version (name p)) candidates
    else None
  else None.

Definition resolve_board_image (images : list Path) (board tag : string)
  : option Path :=
  let version := version_of tag in
  match strict_phase images board version with
  | Some p => Some p
  | None => loose_phase images board version
  end.

(* ================================================================== *)
(** * ReleaseCatalog: [find_release] *)

(** The release-metadata provider behind [http_json]: the two URLs the
    script fetches.  A transport or HTTP failure is an exception. *)
Record Provider : Type := mkProvider {
  get_releases : result (list Release);             (* /releases?per_page=100 *)
  get_release_by_tag : string -> result Release     (* /releases/tags/<tag> *)
}.

(** [r.get("created_at") or r.get("published_at")] *)
Definition sort_key (r : Release) : option string :=
  match created_at r with
  | Some s => if truthy s then Some s else published_at r
  | None => published_at r
  end.

Definition has_key (r : Release) : bool :=
  match sort_key r with Some _ => true | None => false end.

Definition key_str (r : Release) : string :=
  match sort_key r with Some s => s | None => "" end.

(** [candidates.sort(key=..., reverse=True)].  Keys are compared as strings;
    a key that is [None] cannot be compared, and with two or more elements
    every key takes part in a comparison. *)
Definition sort_candidates (candidates : list Release) : result (list Release) :=
  if (2 <=? length candidates)%nat && negb (forallb has_key candidates)
  then Raise TypeError
  else Ok (sort_key_reverse String.ltb key_str candidates).

Definition no_suitable_releases : exn :=
  SystemExit (ExitMsg "No suitable releases found on Meshtastic/firmware.").

Definition not_enough_releases : exn :=
  SystemExit
    (ExitMsg "Requested release (previous) not found (not enough releases).").

Definition channel_filter (alpha : bool) (r : Release) : bool :=
  if alpha then prerelease r && negb (draft r)
  else negb (prerelease r) && negb (draft r).

(** [candidates = [r for r in releases if ...]], for either channel. *)
Definition feed_candidates (alpha : bool) (releases : list Release)
  : list Release :=
  filter (channel_filter alpha) releases.

(** The part of [find_release] that runs when no tag is given. *)
Definition find_release_in_feed (api : Provider) (previous alpha : bool)
  : result Release :=
  match get_releases api with
  | Raise e => Raise e
  | Ok releases =>
      let candidates := feed_candidates alpha releases in
      match candidates with
      | [] => Raise no_suitable_releases
      | _ :: _ =>
          match sort_candidates candidates with
          | Raise e => Raise e
          | Ok sorted_candidates =>
              let idx := if previous then 1%nat else 0%nat in
              if (length sorted_candidates <=? idx)%nat
              then Raise not_enough_releases
              else match nth_error sorted_candidates idx with
                   | Some r => Ok r
                   | None => Raise IndexError
                   end
          end
      end
  end.

Definition find_release (api : Provider) (previous alpha : bool)
           (tag : option string) : result Release :=
  match tag with
  | Some t =>
      if truthy t then get_release_by_tag api t
      else find_release_in_feed api previous alpha
  | None => find_release_in_feed api previous alpha
  end.

(* ================================================================== *)
(** * AssetSelector: [pick_asset_for_platform] *)

(** [^firmware-<platform>-.*\.zip$], [re.IGNORECASE] *)
Definition asset_pattern (platform : string) : pattern :=
  Pattern
    (seq [lit "firmware-"; lit platform; lit "-"; Star Dot;
          lit "."; lit "zip"; dollar])
    true.

Definition platform_matches (release : Release) (platform : string)
  : list Asset :=
  filter (fun a => re_match (asset_pattern platform) (asset_name a))
         (assets release).

Definition no_bundle_for_platform (release : Release) (platform : string)
  : exn :=
  SystemExit
    (ExitMsg ("No firmware bundle found for platform '" ++ platform
              ++ "' in release " ++ tag_name release)).

Definition pick_asset_for_platform (release : Release) (platform : string)
  : result Asset :=
  let matches := platform_matches release platform in
  match matches with
  | [] => Raise (no_bundle_for_platform release platform)
  | _ :: _ =>
      match nth_error (sort_key_reverse Z.ltb asset_size matches) 0 with
      | Some a => Ok a
      | None => Raise IndexError
      end
  end.

(* ================================================================== *)
(** * The console and the processes the script starts *)

Definition Env : Type := list (string * string).

(** [env[k] = v] *)
Definition env_set (env : Env) (k v : string) : Env :=
  (k, v) :: filter (fun kv => negb (fst kv =? k)%string) env.

Record World : Type := mkWorld {
  stdout : list string;                   (* what was printed, oldest first *)
  stderr : list string;
  stdin : list string;                    (* the lines [input] has yet to read *)
  spawned : list (list string * Env)      (* commands started, oldest first *)
}.

(** A computation that reads and writes the world and may raise. *)
Definition M (A : Type) : Type := World -> result A * World.

Definition ret {A : Type} (a : A) : M A := fun w => (Ok a, w).

Definition bind {A B : Type} (m : M A) (k : A -> M B) : M B :=
  fun w =>
    match m w with
    | (Ok a, w') => k a w'
    | (Raise e, w') => (Raise e, w')
    end.

Definition raise {A : Type} (e : exn) : M A := fun w => (Raise e, w).

Declare Scope py_scope.
Delimit Scope py_scope with py.
Notation "x <- m ;; k" := (bind m (fun x => k))
  (at level 100, m at next level, right associativity) : py_scope.
Notation "m ;; k" := (bind m (fun _ => k))
  (at level 100, right associativity) : py_scope.
Local Open Scope py_scope.

(** [print(line)] *)
Definition print (line : string) : M unit :=
  fun w => (Ok tt, mkWorld (stdout w ++ [line]) (stderr w) (stdin w) (spawned w)).

(** [print(line, file=sys.stderr)] *)
Definition eprint (line : string) : M unit :=
  fun w => (Ok tt, mkWorld (stdout w) (stderr w ++ [line]) (stdin w) (spawned w)).

(** [sys.exit(code)] *)
Definition sys_exit {A : Type} (code : Z) : M A :=
  raise (SystemExit (ExitCode code)).

(** [str(path)] *)
Definition path_str (p : Path) : string := join "/" (parts p).

(** Lexicographic order on path components, the order [sorted] puts
    paths in. *)
Fixpoint parts_ltb (a b : list string) : bool :=
  match a, b with
  | [], [] => false
  | [], _ :: _ => true
  | _ :: _, [] => false
  | x :: a', y :: b' =>
      String.ltb x y || ((x =? y)%string && parts_ltb a' b')
  end.

Definition path_ltb (p q : Path) : bool := parts_ltb (parts p) (parts q).

(** [extract_dir.rglob("*-update.bin")] over the files found below
    [extract_dir]. *)
Definition rglob_update_bin (tree : list Path) : list Path :=
  filter (fun p => endswith (name p) "-update.bin") tree.

Definition no_images_found : exn :=
  SystemExit
    (ExitMsg "No '*-update.bin' images were found inside the firmware bundle.").

Definition list_update_bins (tree : list Path) : result (list Path) :=
  let bins := sorted path_ltb (rglob_update_bin tree) in
  match bins with
  | [] => Raise no_images_found
  | _ :: _ => Ok bins
  end.

(** [input(prompt)]: the prompt goes to the terminal, one line is read;
    at end of input [EOFError] is raised. *)
Definition input (prompt : string) : M string :=
  fun w =>
    let w' := mkWorld (stdout w ++ [prompt]) (stderr w) (tl (stdin w))
                      (spawned w) in
    match stdin w with
    | [] => (Raise EOFError, w')
    | line :: _ => (Ok line, w')
    end.

Definition lift {A : Type} (r : result A) : M A := fun w => (r, w).

(* ================================================================== *)
(** * [main]: choosing the image (lines 234-256) *)

Definition nl : string := String newline "".

(** [f"{i:2d}"] *)
Definition fmt_2d (i : nat) : string :=
  let s := str_of_int (Z.of_nat i) in
  if (String.length s <? 2)%nat then " " ++ s else s.

(** [for i, p in enumerate(images, 1): print(f"  {i:2d}. {p.name}")] *)
Fixpoint print_images (i : nat) (images : list Path) : M unit :=
  match images with
  | [] => ret tt
  | p :: rest =>
      print ("  " ++ fmt_2d i ++ ". " ++ name p) ;;
      print_images (S i) rest
  end.

(** The [while True] loop that asks for an exact file name.  Every round
    reads one line, so the loop is driven by the lines still to be read
    ([pending]); when they run out, [input] raises [EOFError]. *)
Fixpoint prompt_exact_filename (images : list Path) (pending : list string)
  : M Path :=
  let ask :=
    input (nl ++ "Enter the EXACT filename to flash (copy/paste from list): ") in
  match pending with
  | [] => (_ <- ask ;; raise EOFError)
  | _ :: rest =>
      line <- ask ;;
      let user_in := strip line in
      if negb (truthy user_in) then
        (print "Please enter a filename." ;;
         prompt_exact_filename images rest)
      else
        match filter (fun p => (name p =? user_in)%string) images with
        | [m] => ret m
        | _ =>
            (print "No exact match. Please copy/paste the filename exactly as shown." ;;
             prompt_exact_filename images rest)
        end
  end.

(** [tree] is what the extracted bundle contains, [board] is [args.board],
    [tag] is the chosen release's [tag_name]. *)
Definition main_select_image (tree : list Path) (board : option string)
           (tag : string) : M Path :=
  images <- lift (list_update_bins tree) ;;
  chosen <-
    match board with
    | Some b =>
        if truthy b then
          match resolve_board_image images (strip b) tag with
          | Some p => ret (Some p)
          | None =>
              (eprint ("Could not automatically find image for board '"
                       ++ b ++ "'.") ;;
               ret None)
          end
        else ret None
    | None => ret None
    end ;;
  match chosen with
  | Some p => ret p
  | None =>
      print (nl ++ "Available update binaries in this bundle:" ++ nl) ;;
      print_images 1 images ;;
      (fun w => prompt_exact_filename images (stdin w) w)
  end.

(* ================================================================== *)
(** * FlashOrchestrator: [run] and the two steps that end [main] *)

Section Flash.

(** The external flashing script: the status [subprocess.run] reports for
    a command, given the commands started before it. *)
Variable returncode : list (list string * Env) -> list string -> Env -> Z.

(** [subprocess.run(cmd, env=env, check=False).returncode] *)
Definition subprocess_run (cmd : list string) (env : Env) : M Z :=
  fun w =>
    (Ok (returncode (spawned w) cmd env),
     mkWorld (stdout w) (stderr w) (stdin w) (spawned w ++ [(cmd, env)])).

Definition run (cmd : list string) (env : Env) (dry_run verbose : bool)
  : M Z :=
  (if verbose || dry_run then print ("+ " ++ join " " cmd) else ret tt) ;;
  if dry_run then ret 0%Z
  else subprocess_run cmd env.

Definition change_mode_cmd (device_update chosen_path : Path) : list string :=
  [path_str device_update; "-f"; path_str chosen_path; "--change-mode"].

Definition flash_cmd (device_update chosen_path : Path) : list string :=
  [path_str device_update; "-f"; path_str chosen_path].

(** [env = os.environ.copy(); env["ESPTOOL_PORT"] = esptool_port] *)
Definition flash_env (environ : Env) (esptool_port : string) : Env :=
  env_set environ "ESPTOOL_PORT" esptool_port.

(** Lines 269-293 of [main]. *)
Definition main_flash (environ : Env) (esptool_port : string)
           (device_update chosen_path : Path)
           (change_mode dry_run verbose : bool) : M unit :=
  let env := flash_env environ esptool_port in
  (if change_mode then
     print "Step 1/2: Preparing flash (change mode)..." ;;
     rc1 <- run (change_mode_cmd device_update chosen_path) env
                dry_run verbose ;;
     if negb (rc1 =? 0)%Z then
       (eprint ("❌ change-mode step failed with exit code "
                ++ str_of_int rc1 ++ ". Aborting.") ;;
        sys_exit rc1)
     else ret tt
   else
     if verbose then print "Skipping change-mode step (not requested)."
     else ret tt) ;;
  print "Step 2/2: Flashing firmware..." ;;
  rc2 <- run (flash_cmd device_update chosen_path) env dry_run verbose ;;
  if (rc2 =? 0)%Z then print "✅ Flash completed successfully."
  else
    (eprint ("❌ Flash failed with exit code " ++ str_of_int rc2
             ++ ". See the output above.") ;;
     sys_exit rc2).

End Flash.

(** How a run ends. *)
Inductive FlashOutcome : Type :=
| Success
| Failed.

(** The outcome of the script: it succeeds when [main] returns. *)
Definition outcome {A : Type} (r : result A) : FlashOutcome :=
  match r with
  | Ok _ => Success
  | Raise (SystemExit (ExitCode 0%Z)) => Success
  | Raise _ => Failed
  end.

(** The status the interpreter is asked to exit with: the argument of
    [sys.exit], 1 for a message or an uncaught exception, 0 when [main]
    returns. *)
Definition exit_status {A : Type} (r : result A) : Z :=
  match r with
  | Ok _ => 0%Z
  | Raise (SystemExit (ExitCode code)) => code
  | Raise _ => 1%Z
  end.

(* ================================================================== *)
(** * Vocabulary of the properties *)

(** [sub] occurs in [s] as a contiguous substring. *)
Definition occurs_in (sub s : string) : Prop :=
  exists a b, s = (a ++ sub ++ b)%string.

Definition no_newline (s : string) : Prop :=
  Forall (fun c => c <> newline) (list_ascii_of_string s).

(** What a final [$] lets follow the match: nothing, or one newline. *)
Definition dollar_tail (t : string) : Prop := t = "" \/ t = nl.

(** [firmware-<board>-<version>-update.bin] *)
Definition expected_name (board version : string) : string :=
  "firmware-" ++ board ++ "-" ++ version ++ "-update.bin".

(** The subjects of [^<lit>$] under [re.IGNORECASE]. *)
Definition literal_matches (e s : string) : Prop :=
  exists body tail, s = (body ++ tail)%string /\ ci_eq body e /\ dollar_tail tail.

(** The subjects of [^<pre>.*<suf>$] under [re.IGNORECASE]. *)
Definition wildcard_matches (pre suf s : string) : Prop :=
  exists p m x tail,
    s = (p ++ m ++ x ++ tail)%string /\
    ci_eq p pre /\ no_newline m /\ ci_eq x suf /\ dollar_tail tail.

Definition strict_matches (board version s : string) : Prop :=
  literal_matches (expected_name board version) s.

Definition loose_matches (board s : string) : Prop :=
  wildcard_matches ("firmware-" ++ board ++ "-") "-update.bin" s.

Definition bundle_matches (platform s : string) : Prop :=
  wildcard_matches ("firmware-" ++ platform ++ "-") ".zip" s.

(** [x] is the first element of [l] that satisfies [P]. *)
Definition first_such {A : Type} (P : A -> Prop) (l : list A) (x : A) : Prop :=
  exists l1 l2, l = l1 ++ x :: l2 /\ Forall (fun y => ~ P y) l1 /\ P x.

(* ================================================================== *)
(** * Sample inputs *)

Module Sample.

Definition in_bundle (file : string) : Path :=
  mkPath ["cache"; "firmware-esp32s3-2.7.11"; file].

(** A bundle whose only image carries the board and the version. *)
Definition t3s3_image : Path :=
  in_bundle "firmware-tlora-t3s3-v1-2.7.11-update.bin".

(** Two images for board [x]; the first has an empty version part. *)
Definition x_blank : Path := in_bundle "firmware-x--update.bin".
Definition x_a : Path := in_bundle "firmware-x-a-update.bin".
Definition x_images : list Path := [x_blank; x_a].

(** Three images, two of them for board [heltec-v3]; only the second
    mentions version 2.7.11. *)
Definition heltec_old : Path :=
  in_bundle "firmware-heltec-v3-2.7.10-update.bin".
Definition heltec_tft : Path :=
  in_bundle "firmware-heltec-v3-2.7.11-tft-update.bin".
Definition other_board : Path :=
  in_bundle "firmware-other-2.7.11-update.bin".
Definition heltec_images : list Path :=
  [heltec_old; heltec_tft; other_board].

(** A feed with one stable release; the tag [v2.7.12-alpha] is a
    prerelease. *)
Definition stable_2_7_11 : Release :=
  mkRelease "v2.7.11" false false (Some "2025-10-01T12:00:00Z")
            (Some "2025-10-02T08:00:00Z") [].
Definition alpha_2_7_12 : Release :=
  mkRelease "v2.7.12-alpha" true false (Some "2025-10-20T12:00:00Z")
            (Some "2025-10-20T13:00:00Z") [].
Definition tagged_api : Provider :=
  mkProvider (Ok [stable_2_7_11])
             (fun t => if (t =? "v2.7.12-alpha")%string then Ok alpha_2_7_12
                       else Raise (HTTPError 404)).

(** A feed in which two stable releases carry the same timestamp. *)
Definition stable_old : Release :=
  mkRelease "v2.6.0" false false (Some "2025-03-01T00:00:00Z") None [].
Definition stable_new_a : Release :=
  mkRelease "v2.7.0" false false (Some "2025-06-01T00:00:00Z") None [].
Definition stable_new_b : Release :=
  mkRelease "v2.7.0-hotfix" false false None (Some "2025-06-01T00:00:00Z") [].
Definition draft_newest : Release :=
  mkRelease "v2.8.0" false true (Some "2025-09-01T00:00:00Z") None [].
Definition feed_releases : list Release :=
  [stable_old; alpha_2_7_12; stable_new_a; draft_newest; stable_new_b].
Definition feed_api : Provider :=
  mkProvider (Ok feed_releases) (fun _ => Raise (HTTPError 404)).

(** The assets of the spec's example, and a release with a size tie. *)
Definition plain_zip : Asset :=
  mkAsset "firmware-esp32s3-v2.7.zip" 100 "https://example.invalid/a.zip".
Definition debug_zip : Asset :=
  mkAsset "firmware-esp32s3-v2.7-debug.zip" 500 "https://example.invalid/b.zip".
Definition extra_zip : Asset :=
  mkAsset "Firmware-ESP32S3-v2.7-extra.ZIP" 500 "https://example.invalid/c.zip".
Definition nrf_zip : Asset :=
  mkAsset "firmware-nrf52-v2.7.zip" 900 "https://example.invalid/d.zip".
Definition release_2_7 : Release :=
  mkRelease "v2.7" false false (Some "2025-06-01T00:00:00Z") None
            [plain_zip; debug_zip].
Definition release_tied : Release :=
  mkRelease "v2.7" false false (Some "2025-06-01T00:00:00Z") None
            [nrf_zip; plain_zip; debug_zip; extra_zip].

(** A flashing script whose change-mode step exits with status 5 and
    whose flash step would succeed. *)
Definition script : Path := in_bundle "device-update.sh".
Definition failing_prepare (_ : list (list string * Env)) (cmd : list string)
           (_ : Env) : Z :=
  if existsb (fun a => (a =? "--change-mode")%string) cmd then 5%Z else 0%Z.
Definition idle : World := mkWorld [] [] [] [].

End Sample.

(* ================================================================== *)
(** * The rest of the script *)

(** ** Permission bits: [chmod_plus_x] and the check in [main] *)

Definition S_IXUSR : Z := 64.     (* 0o100 *)
Definition S_IXGRP : Z := 8.      (* 0o010 *)
Definition S_IXOTH : Z := 1.      (* 0o001 *)

(** [chmod_plus_x], as the mode [path.chmod] receives for a file of mode
    [mode]. *)
Definition chmod_plus_x (mode : Z) : Z :=
  Z.lor (Z.lor (Z.lor mode S_IXUSR) S_IXGRP) S_IXOTH.

(** Lines 230-232 of [main]: the mode of [device-update.sh] afterwards. *)
Definition main_make_executable (mode : Z) : Z :=
  if (Z.land mode S_IXUSR =? 0)%Z
  then Z.lor (Z.lor (Z.lor mode S_IXUSR) S_IXGRP) S_IXOTH
  else mode.

(** ** Paths *)

(** [s.split(sep)] for a one-character separator. *)
Fixpoint split_on (sep : ascii) (s : string) : list string :=
  match s with
  | EmptyString => [EmptyString]
  | String c rest =>
      if Ascii.eqb c sep then EmptyString :: split_on sep rest
      else match split_on sep rest with
           | h :: t => String c h :: t
           | [] => [String c EmptyString]
           end
  end.

(** The components [pathlib] keeps of a segment: empty ones and [.] go. *)
Definition segment_parts (s : string) : list string :=
  filter (fun x => truthy x && negb (x =? ".")%string) (split_on "/" s).

(** The root of a POSIX path string: [//] for exactly two leading
    slashes, [/] for any other number of them, none otherwise. *)
Definition root_of (s : string) : option string :=
  if String.prefix "/" s then
    if String.prefix "//" s && negb (String.prefix "///" s)
    then Some "//" else Some "/"
  else None.

(** [p / s]: an absolute segment replaces [p]. *)
Definition path_join (p : Path) (s : string) : Path :=
  match root_of s with
  | Some root => mkPath (root :: segment_parts s)
  | None => mkPath (parts p ++ segment_parts s)
  end.

Definition path_eqb (p q : Path) : bool :=
  if list_eq_dec string_dec (parts p) (parts q) then true else false.

(** [p.name] with [pathlib]'s convention that a bare root has no name. *)
Definition pure_name (p : Path) : string :=
  match parts p with
  | [_] => match root_of (name p) with Some _ => "" | None => name p end
  | _ => name p
  end.

(** [s.rfind(c)] for a character, [None] standing for -1. *)
Fixpoint rfind_chr (c : ascii) (s : string) : option nat :=
  match s with
  | EmptyString => None
  | String d rest =>
      match rfind_chr c rest with
      | Some i => Some (S i)
      | None => if Ascii.eqb d c then Some 0%nat else None
      end
  end.

(** [PurePath.suffix] of a name: from the last dot, unless that dot is the
    first or the last character. *)
Definition suffix_of (nm : string) : string :=
  match rfind_chr "." nm with
  | Some i =>
      if (0 <? i)%nat && (i <? String.length nm - 1)%nat
      then String.substring i (String.length nm - i) nm
      else ""
  | None => ""
  end.

(** [p.with_suffix(suffix)] for a suffix that is a dot followed by
    something without a slash, such as [.zip]; [None] is [ValueError],
    raised for a path without a name. *)
Definition with_suffix (p : Path) (suffix : string) : option Path :=
  let nm := pure_name p in
  if truthy nm then
    let old := suffix_of nm in
    let nm' :=
      if truthy old
      then (String.substring 0 (String.length nm - String.length old) nm
            ++ suffix)%string
      else (nm ++ suffix)%string in
    Some (mkPath (removelast (parts p) ++ [nm']))
  else None.

(** [s.replace(old, new)] for a non-empty [old]: occurrences are taken
    from the left and do not overlap; [skip] counts the characters of an
    occurrence still to be dropped. *)
Fixpoint replace_from (old new : string) (skip : nat) (s : string) : string :=
  match s with
  | EmptyString => EmptyString
  | String c rest =>
      match skip with
      | S k => replace_from old new k rest
      | O =>
          if String.prefix old s
          then (new ++ replace_from old new (String.length old - 1) rest)%string
          else String c (replace_from old new 0 rest)
      end
  end.

(** [s.replace("", new)] puts [new] around every character. *)
Fixpoint replace_empty (new s : string) : string :=
  match s with
  | EmptyString => new
  | String c rest => (new ++ String c (replace_empty new rest))%string
  end.

Definition str_replace (old new s : string) : string :=
  if truthy old then replace_from old new 0 s else replace_empty new s.

(** ** The download cache (lines 202-226 of [main]) *)

(** [outdir = Path(args.output_dir).resolve() / asset_name.replace(".zip","")];
    [output_dir] is the resolved directory. *)
Definition cache_outdir (output_dir : Path) (asset_name : string) : Path :=
  path_join output_dir (str_replace ".zip" "" asset_name).

(** [zip_path = outdir.with_suffix(".zip")] *)
Definition cache_zip_path (output_dir : Path) (asset_name : string)
  : option Path :=
  with_suffix (cache_outdir output_dir asset_name) ".zip".

(** What the download and extract steps do to the disk. *)
Inductive io_action : Type :=
| Download (url : string) (dest : Path)
| Extract (archive dest : Path).

(** The disk, as far as [exists()] goes: the paths that exist. *)
Definition Disk : Type := list Path.

Definition exists_on (disk : Disk) (p : Path) : bool :=
  existsb (path_eqb p) disk.

(** [p.parents], nearest first. *)
Fixpoint prefixes (l : list string) : list (list string) :=
  match l with
  | [] => []
  | x :: rest => [x] :: map (cons x) (prefixes rest)
  end.

Definition parents (p : Path) : list Path :=
  map mkPath (tl (rev (prefixes (parts p)))).

Section Fetch.

(** The network and the archive: [None] when the call completes, the
    exception it raises otherwise. *)
Variable http_download : string -> Path -> option exn.
Variable extractall : Path -> Path -> option exn.

(** The download and extract steps: the actions carried out, in order, and
    the disk afterwards.  [http_download] makes the archive and the
    directories above it, [mkdir] and [extractall] the directory. *)
Definition main_fetch (verbose : bool) (disk : Disk) (asset_url : string)
           (outdir zip_path : Path) : M (list io_action * Disk) :=
  fetched <-
    (if negb (exists_on disk zip_path) then
       (if verbose then print ("Downloading " ++ asset_url ++ " ...")
        else ret tt) ;;
       match http_download asset_url zip_path with
       | Some e => raise e
       | None =>
           ret ([Download asset_url zip_path],
                zip_path :: parents zip_path ++ disk)
       end
     else
       (if verbose then print ("Using cached " ++ path_str zip_path)
        else ret tt) ;;
       ret ([], disk)) ;;
  if negb (exists_on (snd fetched) outdir) then
    (if verbose then print ("Extracting to " ++ path_str outdir ++ " ...")
     else ret tt) ;;
    match extractall zip_path outdir with
    | Some e => raise e
    | None =>
        ret (fst fetched ++ [Extract zip_path outdir],
             outdir :: parents outdir ++ snd fetched)
    end
  else
    (if verbose
     then print ("Using existing extracted directory " ++ path_str outdir)
     else ret tt) ;;
    ret fetched.

End Fetch.

(** ** [find_device_update_sh] *)

Definition no_device_update_sh : exn :=
  SystemExit
    (ExitMsg "device-update.sh not found in extracted firmware bundle.").

(** [tree] lists what lies below [extract_dir], in the order [rglob]
    yields it. *)
Definition find_device_update_sh (extract_dir : Path) (tree : list Path)
  : result Path :=
  let candidate := path_join extract_dir "device-update.sh" in
  if exists_on tree candidate then Ok candidate
  else
    match filter (fun p => (name p =? "device-update.sh")%string) tree with
    | p :: _ => Ok p
    | [] => Raise no_device_update_sh
    end.

(** ** The checks that open [main] (lines 174-191) *)

(** [env.get(k)] *)
Definition env_get (env : Env) (k : string) : option string :=
  match find (fun kv => (fst kv =? k)%string) env with
  | Some kv => Some (snd kv)
  | None => None
  end.

(** [ensure_esptool_in_path]; [which] is [shutil.which] on the current
    [PATH]. *)
Fixpoint first_which (which : string -> option string) (names : list string)
  : option string :=
  match names with
  | [] => None
  | nm :: rest =>
      match which nm with
      | Some p => if truthy p then Some p else first_which which rest
      | None => first_which which rest
      end
  end.

Definition ensure_esptool_in_path (which : string -> option string)
  : option string :=
  first_which which ["esptool.py"; "esptool"].

(** Lines 174-181: the environment and the port afterwards. *)
Definition main_port (port_arg : option string) (environ : Env)
  : M (Env * string) :=
  let environ' :=
    match port_arg with
    | Some p => if truthy p then env_set environ "ESPTOOL_PORT" p else environ
    | None => environ
    end in
  match env_get environ' "ESPTOOL_PORT" with
  | Some p =>
      if truthy p then ret (environ', p)
      else
        (eprint "ERROR: ESPTOOL_PORT is not set. Use --port or set the env var." ;;
         eprint "  e.g., --port /dev/ttyACM0  or  export ESPTOOL_PORT=/dev/ttyACM0" ;;
         sys_exit 2)
  | None =>
      (eprint "ERROR: ESPTOOL_PORT is not set. Use --port or set the env var." ;;
       eprint "  e.g., --port /dev/ttyACM0  or  export ESPTOOL_PORT=/dev/ttyACM0" ;;
       sys_exit 2)
  end.

(** Lines 184-191. *)
Definition main_esptool (which : string -> option string) : M string :=
  match ensure_esptool_in_path which with
  | Some p => ret p
  | None =>
      (eprint "ERROR: 'esptool.py' (or 'esptool') was not found in your PATH." ;;
       eprint "Install with pipx (recommended):" ;;
       eprint "  pipx install esptool" ;;
       eprint "Or with pip (user):" ;;
       eprint "  python3 -m pip install --user esptool" ;;
       sys_exit 3)
  end.

(** Lines 174-191: the port, then the tool. *)
Definition main_preflight (port_arg : option string) (environ : Env)
           (which : string -> option string) : M (Env * string * string) :=
  ep <- main_port port_arg environ ;;
  tool <- main_esptool which ;;
  ret (fst ep, snd ep, tool).

(** [SUPPORTED_PLATFORMS] *)
Definition SUPPORTED_PLATFORMS : list string :=
  ["esp32"; "esp32s3"; "nrf52"; "rp2040"].

(* ================================================================== *)
(** * Facts about strings *)

Module StrFacts.

Lemma append_nil_r (s : string) : (s ++ "")%string = s.
Proof. induction s; simpl; congruence. Qed.

Lemma append_assoc (a b c : string) :
  ((a ++ b) ++ c = a ++ (b ++ c))%string.
Proof. induction a; simpl; congruence. Qed.

Lemma list_of_append (a b : string) :
  list_ascii_of_string (a ++ b)
  = (list_ascii_of_string a ++ list_ascii_of_string b)%list.
Proof. induction a; simpl; congruence. Qed.

Lemma string_of_app (u v : list ascii) :
  string_of_list_ascii (u ++ v)%list
  = (string_of_list_ascii u ++ string_of_list_ascii v)%string.
Proof. induction u; simpl; congruence. Qed.

Lemma str_lower_append (a b : string) :
  str_lower (a ++ b) = (str_lower a ++ str_lower b)%string.
Proof. induction a; simpl; congruence. Qed.

(** Lower-casing never produces or removes a newline. *)
Lemma lower_newline (x : ascii) : lower x = newline -> x = newline.
Proof.
  destruct x as [[] [] [] [] [] [] [] []]; vm_compute; congruence.
Qed.

Lemma truthy_true (s : string) : truthy s = true <-> s <> "".
Proof.
  unfold truthy. destruct (String.eqb_spec s ""); simpl; split;
    congruence.
Qed.

Lemma prefix_spec (a s : string) :
  String.prefix a s = true <-> exists b, s = (a ++ b)%string.
Proof.
  revert s. induction a as [|c a IH]; intros s; simpl.
  - destruct s; split; eauto.
  - destruct s as [|d s]; simpl;
      [split; [discriminate | intros [b Hb]; discriminate]|].
    destruct (ascii_dec c d) as [->|Hne].
    + rewrite IH. split; intros [b Hb]; exists b; congruence.
    + split; [discriminate | intros [b Hb]; congruence].
Qed.

(** [str_in] decides occurrence as a substring. *)
Lemma str_in_spec (sub s : string) :
  str_in sub s = true <-> occurs_in sub s.
Proof.
  unfold occurs_in. induction s as [|c s IH].
  - cbn [str_in]. rewrite orb_false_r, prefix_spec. split.
    + intros [b Hb]. exists "", b. exact Hb.
    + intros [a [b Hb]]. destruct a; [eauto|discriminate].
  - cbn [str_in]. rewrite orb_true_iff, prefix_spec, IH. split.
    + intros [[b Hb] | [a [b Hb]]].
      * exists "", b. exact Hb.
      * exists (String c a), b. simpl. congruence.
    + intros [a [b Hb]]. destruct a as [|d a].
      * left. exists b. exact Hb.
      * right. exists a, b. simpl in Hb. congruence.
Qed.

(** [lstrip "v"] leaves nothing exactly of the strings made of [v]s. *)
Lemma lstrip_v_empty (tag : string) :
  lstrip "v" tag = ""
  <-> Forall (fun c => c = "v"%char) (list_ascii_of_string tag).
Proof.
  induction tag as [|c tag IH]; simpl.
  - split; auto.
  - rewrite orb_false_r. destruct (Ascii.eqb_spec c "v") as [->|Hne].
    + rewrite IH. split; intro H; [constructor; auto | inversion H; auto].
    + split; [discriminate | intro H; inversion H; contradiction].
Qed.

End StrFacts.

(* ================================================================== *)
(** * The matcher decides the language of a pattern *)

Module RegexFacts.
Import StrFacts.

Lemma lang_nil_nullable (ic : bool) (r : re) :
  lang ic r [] -> nullable r = true.
Proof.
  intro H. remember (@nil ascii) as w eqn:Hw.
  induction H; simpl; try discriminate; auto.
  - apply app_eq_nil in Hw as [-> ->].
    rewrite IHlang1, IHlang2; auto.
  - rewrite IHlang; auto.
  - rewrite IHlang, orb_true_r; auto.
Qed.

Lemma nullable_lang_nil (ic : bool) (r : re) :
  nullable r = true -> lang ic r [].
Proof.
  induction r; simpl; intro H; try discriminate.
  - constructor.
  - apply andb_true_iff in H as [H1 H2].
    change (@nil ascii) with (@nil ascii ++ []). constructor; auto.
  - apply orb_true_iff in H as [H|H]; [apply L_alt_l | apply L_alt_r]; auto.
  - constructor.
Qed.

Lemma deriv_sound (ic : bool) (x : ascii) (r : re) :
  forall w, lang ic (deriv ic x r) w -> lang ic r (x :: w).
Proof.
  induction r; simpl; intros w H.
  - inversion H.
  - inversion H.
  - destruct (chr_matches ic c x) eqn:E; inversion H; subst.
    constructor; assumption.
  - destruct (dot_matches x) eqn:E; inversion H; subst.
    constructor; assumption.
  - destruct (nullable r1) eqn:N.
    + inversion H as [| | | | ? ? ? HL | ? ? ? HR | |]; subst.
      * inversion HL; subst.
        change (x :: w1 ++ w2) with ((x :: w1) ++ w2). constructor; auto.
      * change (x :: w) with ([] ++ x :: w).
        constructor; auto using nullable_lang_nil.
    + inversion H; subst.
      change (x :: w1 ++ w2) with ((x :: w1) ++ w2). constructor; auto.
  - inversion H; subst; [apply L_alt_l | apply L_alt_r]; auto.
  - inversion H; subst.
    change (x :: w1 ++ w2) with ((x :: w1) ++ w2). constructor; auto.
Qed.

Lemma deriv_complete (ic : bool) (x : ascii) (r : re) (w : list ascii) :
  lang ic r (x :: w) -> lang ic (deriv ic x r) w.
Proof.
  intro H. remember (x :: w) as xw eqn:Hxw. revert w Hxw.
  induction H; intros v Hxw; simpl; try discriminate.
  - injection Hxw as -> <-. rewrite H. constructor.
  - injection Hxw as -> <-. rewrite H. constructor.
  - destruct w1 as [|a w1]; simpl in Hxw.
    + rewrite (lang_nil_nullable H). apply L_alt_r. auto.
    + injection Hxw as -> <-.
      destruct (nullable r1); [apply L_alt_l|]; constructor; auto.
  - apply L_alt_l; auto.
  - apply L_alt_r; auto.
  - destruct w1 as [|a w1]; simpl in Hxw.
    + apply IHlang2 in Hxw. exact Hxw.
    + injection Hxw as -> <-. constructor; auto.
Qed.

(** The derivative matcher accepts exactly the words of the pattern. *)
Theorem matches_spec (ic : bool) (w : list ascii) :
  forall r, matches ic r w = true <-> lang ic r w.
Proof.
  induction w as [|x w IH]; intro r; simpl.
  - split; [apply nullable_lang_nil | apply lang_nil_nullable].
  - rewrite IH. split; [apply deriv_sound | apply deriv_complete].
Qed.

Lemma lang_cat (ic : bool) (r1 r2 : re) (w : list ascii) :
  lang ic (Cat r1 r2) w
  <-> exists w1 w2, w = w1 ++ w2 /\ lang ic r1 w1 /\ lang ic r2 w2.
Proof.
  split.
  - intro H; inversion H; subst; eauto.
  - intros (w1 & w2 & -> & H1 & H2). constructor; auto.
Qed.

Lemma lang_eps (ic : bool) (w : list ascii) : lang ic Eps w <-> w = [].
Proof.
  split; [intro H; inversion H; auto | intros ->; constructor].
Qed.

(** A literal under [re.IGNORECASE]: the same string up to case. *)
Lemma lang_lit (s : string) :
  forall w, lang true (lit s) w <-> ci_eq (string_of_list_ascii w) s.
Proof.
  unfold ci_eq. induction s as [|c s IH]; intro w; simpl.
  - rewrite lang_eps. destruct w; simpl; split; congruence.
  - rewrite lang_cat. split.
    + intros (w1 & w2 & -> & H1 & H2).
      inversion H1 as [|? x Hx| | | | | |]; subst. simpl.
      apply IH in H2. rewrite H2. f_equal.
      simpl in Hx. apply Ascii.eqb_eq in Hx. congruence.
    + destruct w as [|x w]; simpl; [discriminate|].
      intro H. injection H as Hx Hw.
      exists [x], w. repeat split.
      * constructor. simpl. apply Ascii.eqb_eq. congruence.
      * apply IH. exact Hw.
Qed.

(** [.*] takes any run of characters without a newline. *)
Lemma lang_star_dot (ic : bool) (w : list ascii) :
  lang ic (Star Dot) w <-> Forall (fun c => c <> newline) w.
Proof.
  split.
  - intro H. remember (Star Dot) as r eqn:Hr.
    induction H; try discriminate.
    + constructor.
    + injection Hr as ->.
      inversion H as [| |x Hx| | | | |]; subst. simpl.
      constructor; auto.
      unfold dot_matches in Hx. apply negb_true_iff in Hx.
      apply Ascii.eqb_neq in Hx. exact Hx.
  - induction 1 as [|x v Hx _ IH].
    + constructor.
    + change (x :: v) with ([x] ++ v). constructor; auto.
      constructor. unfold dot_matches. apply negb_true_iff.
      apply Ascii.eqb_neq. exact Hx.
Qed.

(** A final [$]. *)
Lemma lang_dollar (w : list ascii) :
  lang true dollar w <-> dollar_tail (string_of_list_ascii w).
Proof.
  unfold dollar, dollar_tail, nl. split.
  - intro H. inversion H as [| | | |? ? ? HL|? ? ? HR| |]; subst.
    + inversion HL. left. reflexivity.
    + inversion HR as [|? x Hx| | | | | |]; subst. right. simpl.
      unfold chr_matches in Hx. apply Ascii.eqb_eq in Hx.
      change (lower newline) with newline in Hx. symmetry in Hx.
      apply lower_newline in Hx. congruence.
  - intros [H|H].
    + destruct w; [|discriminate]. apply L_alt_l. constructor.
    + destruct w as [|x [|y w]]; try discriminate.
      injection H as ->. apply L_alt_r. constructor. reflexivity.
Qed.

Lemma cat_congr (ic : bool) (r1 r2 r2' : re) :
  (forall w, lang ic r2 w <-> lang ic r2' w) ->
  forall w, lang ic (Cat r1 r2) w <-> lang ic (Cat r1 r2') w.
Proof.
  intros H w. rewrite !lang_cat.
  split; intros (w1 & w2 & -> & H1 & H2); exists w1, w2;
    repeat split; auto; apply H; exact H2.
Qed.

Lemma cat_assoc (ic : bool) (r1 r2 r3 : re) (w : list ascii) :
  lang ic (Cat (Cat r1 r2) r3) w <-> lang ic (Cat r1 (Cat r2 r3)) w.
Proof.
  rewrite !lang_cat. split.
  - intros (w12 & w3 & -> & H12 & H3).
    apply lang_cat in H12 as (w1 & w2 & -> & H1 & H2).
    exists w1, (w2 ++ w3). rewrite app_assoc. repeat split; auto.
    constructor; auto.
  - intros (w1 & w23 & -> & H1 & H23).
    apply lang_cat in H23 as (w2 & w3 & -> & H2 & H3).
    exists (w1 ++ w2), w3. rewrite app_assoc. repeat split; auto.
    constructor; auto.
Qed.

Lemma cat_eps_l (ic : bool) (r : re) (w : list ascii) :
  lang ic (Cat Eps r) w <-> lang ic r w.
Proof.
  rewrite lang_cat. split.
  - intros (w1 & w2 & -> & H1 & H2). apply lang_eps in H1. subst. exact H2.
  - intro H. exists [], w. repeat split; auto. constructor.
Qed.

Lemma cat_eps_r (ic : bool) (r : re) (w : list ascii) :
  lang ic (Cat r Eps) w <-> lang ic r w.
Proof.
  rewrite lang_cat. split.
  - intros (w1 & w2 & -> & H1 & H2). apply lang_eps in H2. subst.
    rewrite app_nil_r. exact H1.
  - intro H. exists w, []. rewrite app_nil_r. repeat split; auto.
    constructor.
Qed.

(** Adjacent literals read as one literal. *)
Lemma lit_lit (ic : bool) (a b : string) (r : re) :
  forall w, lang ic (Cat (lit a) (Cat (lit b) r)) w
            <-> lang ic (Cat (lit (a ++ b)) r) w.
Proof.
  induction a as [|c a IH]; intro w; simpl.
  - apply cat_eps_l.
  - rewrite !cat_assoc. apply cat_congr. exact IH.
Qed.

(** [^<e>$] *)
Lemma literal_lang (e : string) (w : list ascii) :
  lang true (Cat (lit e) (Cat dollar Eps)) w
  <-> literal_matches e (string_of_list_ascii w).
Proof.
  unfold literal_matches. rewrite lang_cat. split.
  - intros (w1 & w2 & -> & H1 & H2).
    apply -> cat_eps_r in H2. apply lang_lit in H1. apply lang_dollar in H2.
    eexists _, _. rewrite string_of_app. repeat split; eauto.
  - intros (body & tail & Hs & Hb & Ht).
    exists (list_ascii_of_string body), (list_ascii_of_string tail).
    rewrite <- list_of_append, <- Hs, list_ascii_of_string_of_list_ascii.
    repeat split.
    + apply lang_lit. rewrite string_of_list_ascii_of_string. exact Hb.
    + apply <- cat_eps_r. apply lang_dollar.
      rewrite string_of_list_ascii_of_string. exact Ht.
Qed.

(** [^<pre>.*<suf>$] *)
Lemma wildcard_lang (pre suf : string) (w : list ascii) :
  lang true (Cat (lit pre) (Cat (Star Dot) (Cat (lit suf) (Cat dollar Eps)))) w
  <-> wildcard_matches pre suf (string_of_list_ascii w).
Proof.
  unfold wildcard_matches. split.
  - intro H.
    apply lang_cat in H as (w1 & v1 & -> & H1 & H).
    apply lang_cat in H as (w2 & v2 & -> & H2 & H).
    apply lang_cat in H as (w3 & w4 & -> & H3 & H4).
    apply -> cat_eps_r in H4. apply lang_lit in H1, H3.
    apply lang_dollar in H4. apply lang_star_dot in H2.
    exists (string_of_list_ascii w1), (string_of_list_ascii w2),
           (string_of_list_ascii w3), (string_of_list_ascii w4).
    rewrite !string_of_app. repeat split; auto.
    unfold no_newline. rewrite list_ascii_of_string_of_list_ascii. exact H2.
  - intros (p & m & x & tail & Hs & Hp & Hm & Hx & Ht).
    assert (Hw : w = list_ascii_of_string p ++ list_ascii_of_string m ++
                     list_ascii_of_string x ++ list_ascii_of_string tail).
    { rewrite <- !list_of_append, <- Hs.
      symmetry. apply list_ascii_of_string_of_list_ascii. }
    rewrite Hw.
    constructor; [apply lang_lit; rewrite string_of_list_ascii_of_string; auto|].
    constructor; [apply lang_star_dot; exact Hm|].
    constructor; [apply lang_lit; rewrite string_of_list_ascii_of_string; auto|].
    apply <- cat_eps_r. apply lang_dollar.
    rewrite string_of_list_ascii_of_string. exact Ht.
Qed.

(** What the three patterns of the script accept. *)
Theorem strict_pattern_spec (board version s : string) :
  re_match (strict_pattern board version) s = true
  <-> strict_matches board version s.
Proof.
  unfold re_match, strict_pattern, strict_matches, expected_name, seq.
  cbn [expr ignorecase fold_right].
  rewrite matches_spec, !lit_lit, literal_lang.
  rewrite string_of_list_ascii_of_string, !append_assoc. reflexivity.
Qed.

Theorem loose_pattern_spec (board s : string) :
  re_match (loose_pattern board) s = true <-> loose_matches board s.
Proof.
  unfold re_match, loose_pattern, loose_matches, seq.
  cbn [expr ignorecase fold_right].
  rewrite matches_spec, !lit_lit.
  rewrite <- (string_of_list_ascii_of_string s) at 2.
  rewrite <- wildcard_lang, !append_assoc.
  apply cat_congr; intro. apply cat_congr; intro.
  rewrite !lit_lit. reflexivity.
Qed.

Theorem asset_pattern_spec (platform s : string) :
  re_match (asset_pattern platform) s = true <-> bundle_matches platform s.
Proof.
  unfold re_match, asset_pattern, bundle_matches, seq.
  cbn [expr ignorecase fold_right].
  rewrite matches_spec, !lit_lit.
  rewrite <- (string_of_list_ascii_of_string s) at 2.
  rewrite <- wildcard_lang, !append_assoc.
  apply cat_congr; intro. apply cat_congr; intro.
  rewrite !lit_lit. reflexivity.
Qed.

End RegexFacts.

(* ================================================================== *)
(** * The stable sort: permutation, order, stability *)

Module SortFacts.

Section StableSort.
Context {A : Type}.
Variable before : A -> A -> bool.

(** [a] may stand ahead of [b]: [b] does not have to precede [a]. *)
Let ahead (a b : A) : Prop := before b a = false.

Lemma insert_stable_perm (x : A) (l : list A) :
  Permutation (insert_stable before x l) (x :: l).
Proof.
  induction l as [|y ys IH]; simpl.
  - reflexivity.
  - destruct (before y x).
    + rewrite IH. apply perm_swap.
    + reflexivity.
Qed.

Lemma stable_sort_perm (l : list A) : Permutation (stable_sort before l) l.
Proof.
  induction l as [|x l IH]; simpl.
  - constructor.
  - rewrite insert_stable_perm. constructor. exact IH.
Qed.

Lemma stable_sort_length (l : list A) :
  length (stable_sort before l) = length l.
Proof. apply Permutation_length, stable_sort_perm. Qed.

(** Elements none of which has to precede another keep their order. *)
Lemma insert_stable_filter (f : A -> bool) (x : A) (l : list A) :
  (forall a b, f a = true -> f b = true -> before a b = false) ->
  filter f (insert_stable before x l) = filter f (x :: l).
Proof.
  intro Hf. induction l as [|y ys IH]; simpl.
  - reflexivity.
  - destruct (before y x) eqn:Hyx; [|reflexivity].
    simpl in *. rewrite IH.
    destruct (f y) eqn:Fy, (f x) eqn:Fx; try reflexivity.
    rewrite (Hf y x Fy Fx) in Hyx. discriminate.
Qed.

Theorem stable_sort_stable (f : A -> bool) (l : list A) :
  (forall a b, f a = true -> f b = true -> before a b = false) ->
  filter f (stable_sort before l) = filter f l.
Proof.
  intro Hf. induction l as [|x l IH]; simpl.
  - reflexivity.
  - rewrite insert_stable_filter by assumption. simpl. rewrite IH.
    reflexivity.
Qed.

Hypothesis before_asym :
  forall a b, before a b = true -> before b a = false.
Hypothesis before_trans :
  forall a b c, before a b = true -> before b c = true -> before a c = true.
Hypothesis ahead_trans :
  forall a b c, ahead a b -> ahead b c -> ahead a c.

Lemma insert_stable_sorted (x : A) (l : list A) :
  Sorted ahead l -> Sorted ahead (insert_stable before x l).
Proof.
  induction l as [|y ys IH]; simpl; intro Hs.
  - repeat constructor.
  - inversion Hs as [|? ? Hys Hhd]; subst.
    destruct (before y x) eqn:Hyx.
    + constructor; auto.
      destruct ys as [|z zs]; simpl.
      * constructor. apply before_asym. exact Hyx.
      * destruct (before z x); constructor.
        -- inversion Hhd; assumption.
        -- apply before_asym. exact Hyx.
    + constructor; [exact Hs | constructor; exact Hyx].
Qed.

Theorem stable_sort_sorted (l : list A) :
  StronglySorted ahead (stable_sort before l).
Proof.
  apply Sorted_StronglySorted.
  - intros a b c. apply ahead_trans.
  - induction l as [|x l IH]; simpl.
    + constructor.
    + apply insert_stable_sorted. exact IH.
Qed.

(** The first element of the result is the earliest element of the
    input that no other element has to precede. *)
Theorem stable_sort_head (l : list A) (h : A) (t : list A) :
  stable_sort before l = h :: t ->
  exists l1 l2,
    l = l1 ++ h :: l2 /\
    Forall (fun y => before h y = true) l1 /\
    Forall (fun y => before y h = false) l2.
Proof.
  revert h t. induction l as [|x l IH]; simpl; intros h t Hs.
  - discriminate.
  - destruct (stable_sort before l) as [|h' t'] eqn:Hl.
    + pose proof (stable_sort_length l) as Hlen. rewrite Hl in Hlen.
      destruct l; [|discriminate]. simpl in Hs. injection Hs as <- <-.
      exists [], []. repeat split; constructor.
    + destruct (IH h' t' eq_refl) as (l1 & l2 & -> & H1 & H2).
      simpl in Hs. destruct (before h' x) eqn:Hx; injection Hs as <- <-.
      * exists (x :: l1), l2. repeat split; auto.
      * exists [], (l1 ++ h' :: l2). repeat split; [constructor|].
        apply Forall_app. split; [|constructor].
        -- apply Forall_forall. intros y Hy.
           rewrite Forall_forall in H1. specialize (H1 y Hy).
           destruct (before y x) eqn:Hyx; [|reflexivity].
           rewrite (@before_trans _ _ _ H1 Hyx) in Hx. discriminate.
        -- exact Hx.
        -- apply Forall_forall. intros y Hy.
           rewrite Forall_forall in H2. specialize (H2 y Hy).
           apply (@ahead_trans x h' y); assumption.
Qed.

End StableSort.

(** ** The order on strings *)

Lemma ascii_compare_refl (c : ascii) : Ascii.compare c c = Eq.
Proof. apply N.compare_refl. Qed.

Lemma str_compare_refl (s : string) : String.compare s s = Eq.
Proof.
  induction s as [|c s IH]; simpl; [reflexivity|].
  rewrite ascii_compare_refl. exact IH.
Qed.

Lemma str_compare_lt_trans (a : string) :
  forall b c, String.compare a b = Lt -> String.compare b c = Lt ->
              String.compare a c = Lt.
Proof.
  induction a as [|x a IH]; intros [|y b] [|z c]; simpl; try congruence.
  unfold Ascii.compare.
  destruct (N.compare_spec (N_of_ascii x) (N_of_ascii y)) as [Hxy|Hxy|Hxy];
    destruct (N.compare_spec (N_of_ascii y) (N_of_ascii z)) as [Hyz|Hyz|Hyz];
    try congruence; intros Hab Hbc.
  - rewrite Hxy, Hyz, N.compare_refl. eauto.
  - rewrite Hxy, (proj2 (N.compare_lt_iff _ _) Hyz). reflexivity.
  - rewrite <- Hyz, (proj2 (N.compare_lt_iff _ _) Hxy). reflexivity.
  - assert (H : (N_of_ascii x < N_of_ascii z)%N) by lia.
    rewrite (proj2 (N.compare_lt_iff _ _) H). reflexivity.
Qed.

Lemma str_ltb_irrefl (s : string) : String.ltb s s = false.
Proof. unfold String.ltb. rewrite str_compare_refl. reflexivity. Qed.

Lemma str_ltb_asym (a b : string) :
  String.ltb a b = true -> String.ltb b a = false.
Proof.
  unfold String.ltb. rewrite (String.compare_antisym b a).
  destruct (String.compare a b); simpl; congruence.
Qed.

Lemma str_ltb_leb (a b : string) :
  String.ltb a b = false <-> String.leb b a = true.
Proof.
  unfold String.ltb, String.leb. rewrite (String.compare_antisym a b).
  destruct (String.compare b a); simpl; split; congruence.
Qed.

(** [>=] on strings is transitive. *)
Lemma str_ge_trans (a b c : string) :
  String.ltb a b = false -> String.ltb b c = false -> String.ltb a c = false.
Proof.
  unfold String.ltb. intros Hab Hbc.
  destruct (String.compare a b) eqn:Eab; try discriminate;
    destruct (String.compare b c) eqn:Ebc; try discriminate.
  - apply String.compare_eq_iff in Eab. subst. rewrite Ebc. reflexivity.
  - apply String.compare_eq_iff in Eab. subst. rewrite Ebc. reflexivity.
  - apply String.compare_eq_iff in Ebc. subst. rewrite Eab. reflexivity.
  - assert (Hca : String.compare c a = Lt).
    { apply str_compare_lt_trans with b.
      - rewrite String.compare_antisym, Ebc. reflexivity.
      - rewrite String.compare_antisym, Eab. reflexivity. }
    rewrite String.compare_antisym, Hca. reflexivity.
Qed.

End SortFacts.

(* ================================================================== *)
(** * Facts about lists *)

Module ListFacts.

Section First.
Context {A : Type}.
Variable f : A -> bool.
Variable P : A -> Prop.
Hypothesis f_spec : forall x, f x = true <-> P x.

Lemma f_false (x : A) : f x = false <-> ~ P x.
Proof.
  rewrite <- f_spec. destruct (f x); split; congruence.
Qed.

(** [find] returns the first element that satisfies the test. *)
Lemma find_first (l : list A) (x : A) :
  find f l = Some x <-> first_such P l x.
Proof.
  unfold first_such. split.
  - revert x. induction l as [|a l IH]; simpl; intros x H.
    + discriminate.
    + destruct (f a) eqn:Fa.
      * injection H as <-. exists [], l. repeat split; auto.
        apply f_spec. exact Fa.
      * destruct (IH x H) as (l1 & l2 & -> & H1 & H2).
        exists (a :: l1), l2. repeat split; auto.
        constructor; auto. apply f_false. exact Fa.
  - intros (l1 & l2 & -> & H1 & H2).
    induction H1 as [|a l1 Ha _ IH]; simpl.
    + apply f_spec in H2. rewrite H2. reflexivity.
    + apply f_false in Ha. rewrite Ha. exact IH.
Qed.

Lemma find_nothing (l : list A) :
  find f l = None <-> Forall (fun y => ~ P y) l.
Proof.
  induction l as [|a l IH]; simpl.
  - split; auto.
  - destruct (f a) eqn:Fa.
    + split; [discriminate|]. intro H. inversion H as [|? ? Ha _]; subst.
      apply f_spec in Fa. contradiction.
    + rewrite IH. split; intro H.
      * constructor; auto. apply f_false. exact Fa.
      * inversion H; assumption.
Qed.

Lemma filter_spec (l : list A) (x : A) :
  In x (filter f l) <-> In x l /\ P x.
Proof. rewrite filter_In, f_spec. reflexivity. Qed.

End First.

(** Searching the filtered list is searching the list for both tests. *)
Lemma find_filter {A : Type} (f g : A -> bool) (l : list A) :
  find g (filter f l) = find (fun x => f x && g x) l.
Proof.
  induction l as [|a l IH]; simpl; [reflexivity|].
  destruct (f a); simpl; [destruct (g a)|]; auto.
Qed.

End ListFacts.

(* ================================================================== *)
(** * ImageResolver *)

Module ImageResolver.
Import StrFacts RegexFacts ListFacts.

Lemma strict_some (board version : string) :
  version <> "" -> strict board version = Some (strict_pattern board version).
Proof.
  intro H. unfold strict. apply truthy_true in H. rewrite H. reflexivity.
Qed.

(** With a version, the strict phase returns the first image whose name
    the strict pattern accepts. *)
Lemma strict_phase_first (images : list Path) (board version : string)
      (q : Path) :
  version <> "" ->
  (strict_phase images board version = Some q
   <-> first_such (fun x => strict_matches board version (name x)) images q).
Proof.
  intro Hv. unfold strict_phase. rewrite (strict_some board Hv).
  apply find_first. intro x. apply strict_pattern_spec.
Qed.

Lemma loose_candidates_spec (images : list Path) (board : string) (p : Path) :
  In p (loose_candidates images board)
  <-> In p images /\ loose_matches board (name p).
Proof.
  unfold loose_candidates.
  apply (@filter_spec _ _ (fun x => loose_matches board (name x))).
  intro x. apply loose_pattern_spec.
Qed.

(** An exact name, up to case, is accepted by the strict pattern. *)
Lemma ci_eq_strict_matches (board version s : string) :
  ci_eq s (expected_name board version) -> strict_matches board version s.
Proof.
  intro H. exists s, "". rewrite append_nil_r.
  repeat split; auto. left. reflexivity.
Qed.

(** The only other names it accepts end in a newline. *)
Lemma strict_matches_no_newline (board version s : string) :
  strict_matches board version s -> no_newline s ->
  ci_eq s (expected_name board version).
Proof.
  intros (body & tail & -> & Hb & [->| ->]) Hn.
  - rewrite append_nil_r. exact Hb.
  - unfold no_newline in Hn. rewrite list_of_append in Hn.
    apply Forall_app in Hn as [_ Hn]. inversion Hn; subst. congruence.
Qed.

Lemma resolve_strict (images : list Path) (board tag : string) (q : Path) :
  strict_phase images board (version_of tag) = Some q ->
  resolve_board_image images board tag = Some q.
Proof. unfold resolve_board_image. intros ->. reflexivity. Qed.

Lemma resolve_loose (images : list Path) (board tag : string) :
  strict_phase images board (version_of tag) = None ->
  resolve_board_image images board tag
  = loose_phase images board (version_of tag).
Proof. unfold resolve_board_image. intros ->. reflexivity. Qed.

Lemma loose_phase_one (images : list Path) (board version : string) (c : Path) :
  loose_candidates images board = [c] ->
  loose_phase images board version = Some c.
Proof. unfold loose_phase. intros ->. reflexivity. Qed.

Lemma loose_phase_zero (images : list Path) (board version : string) :
  loose_candidates images board = [] ->
  loose_phase images board version = None.
Proof. unfold loose_phase. intros ->. reflexivity. Qed.

Lemma loose_phase_many (images : list Path) (board version : string) :
  (2 <= length (loose_candidates images board))%nat ->
  loose_phase images board version
  = if truthy version
    then find (fun p => str_in version (name p))
              (loose_candidates images board)
    else None.
Proof.
  intro H. unfold loose_phase.
  destruct (Nat.eqb_spec (length (loose_candidates images board)) 1);
    [lia|].
  destruct (Nat.ltb_spec 1 (length (loose_candidates images board)));
    [reflexivity|lia].
Qed.

End ImageResolver.

(* ================================================================== *)
(** * Properties of image resolution *)

Import StrFacts RegexFacts ListFacts SortFacts ImageResolver.

Unset Implicit Arguments.

(** C1, as the script has it.  When the version (the tag with every leading
    [v] stripped) is not empty and some image is named
    [firmware-<board>-<version>-update.bin] up to case, the strict phase
    finds an image and [resolve_board_image] returns it, without looking at
    the loose candidates: it is the first image the strict pattern accepts,
    and unless its name ends in a newline (which [$] tolerates) its name is
    the expected one up to case. *)
Theorem C1_strict_match_returned
        (images : list Path) (board tag : string) (p : Path) :
  version_of tag <> "" ->
  In p images ->
  ci_eq (name p) (expected_name board (version_of tag)) ->
  exists q,
    first_such (fun x => strict_matches board (version_of tag) (name x))
               images q /\
    strict_phase images board (version_of tag) = Some q /\
    resolve_board_image images board tag
    = strict_phase images board (version_of tag) /\
    (no_newline (name q) ->
     ci_eq (name q) (expected_name board (version_of tag))).
Proof.
  intros Hv Hin Hci.
  destruct (strict_phase images board (version_of tag)) as [q|] eqn:E.
  - exists q.
    pose proof (proj1 (strict_phase_first images board q Hv) E) as Hq.
    repeat split; auto.
    + apply resolve_strict. exact E.
    + destruct Hq as (l1 & l2 & _ & _ & Hm).
      apply strict_matches_no_newline. exact Hm.
  - exfalso. unfold strict_phase in E. rewrite (strict_some board Hv) in E.
    apply (find_nothing _ (fun x => strict_matches board (version_of tag) (name x)))
      in E; [|intro x; apply strict_pattern_spec].
    rewrite Forall_forall in E. apply (E p Hin).
    apply ci_eq_strict_matches. exact Hci.
Qed.

(** The spec's own example: the single image of the bundle is returned by
    the strict phase. *)
Lemma C1_witness :
  version_of "v2.7.11" <> "" /\
  In Sample.t3s3_image [Sample.t3s3_image] /\
  ci_eq (name Sample.t3s3_image)
        (expected_name "tlora-t3s3-v1" (version_of "v2.7.11")) /\
  exists q,
    first_such (fun x => strict_matches "tlora-t3s3-v1" (version_of "v2.7.11")
                                        (name x))
               [Sample.t3s3_image] q /\
    strict_phase [Sample.t3s3_image] "tlora-t3s3-v1" (version_of "v2.7.11")
    = Some q /\
    resolve_board_image [Sample.t3s3_image] "tlora-t3s3-v1" "v2.7.11"
    = strict_phase [Sample.t3s3_image] "tlora-t3s3-v1" (version_of "v2.7.11") /\
    (no_newline (name q) ->
     ci_eq (name q) (expected_name "tlora-t3s3-v1" (version_of "v2.7.11"))).
Proof.
  assert (Hv : version_of "v2.7.11" <> "") by (vm_compute; discriminate).
  assert (Hin : In Sample.t3s3_image [Sample.t3s3_image]) by (left; reflexivity).
  assert (Hci : ci_eq (name Sample.t3s3_image)
                      (expected_name "tlora-t3s3-v1" (version_of "v2.7.11")))
    by reflexivity.
  split; [exact Hv|]. split; [exact Hin|]. split; [exact Hci|].
  exact (C1_strict_match_returned [Sample.t3s3_image] "tlora-t3s3-v1"
           "v2.7.11" Sample.t3s3_image Hv Hin Hci).
Defined.

(** C1 fails as stated when the version is empty: for tag [v] the expected
    name is [firmware-x--update.bin], an image bears exactly that name, and
    yet nothing is returned. *)
Lemma C1_counterexample :
  In Sample.x_blank Sample.x_images /\
  name Sample.x_blank = expected_name "x" (version_of "v") /\
  ci_eq (name Sample.x_blank) (expected_name "x" (version_of "v")) /\
  strict_phase Sample.x_images "x" (version_of "v") = None /\
  resolve_board_image Sample.x_images "x" "v" = None.
Proof.
  repeat split; try reflexivity. left. reflexivity.
Qed.

(** C2.  When the strict phase finds nothing, the candidates are the images
    whose name the loose pattern accepts, in the order of the image list.
    A single candidate is returned; with two or more candidates and a
    version, the first image that is a candidate and has the version in its
    name is returned; in every other case nothing is returned. *)
Theorem C2_loose_phase (images : list Path) (board tag : string) :
  strict_phase images board (version_of tag) = None ->
  (forall p, In p (loose_candidates images board)
             <-> In p images /\ loose_matches board (name p)) /\
  (forall c, loose_candidates images board = [c] ->
             resolve_board_image images board tag = Some c) /\
  (forall c, (2 <= length (loose_candidates images board))%nat ->
             version_of tag <> "" ->
             first_such (fun p => loose_matches board (name p) /\
                                  occurs_in (version_of tag) (name p))
                        images c ->
             resolve_board_image images board tag = Some c) /\
  (length (loose_candidates images board) <> 1%nat ->
   ~ ((2 <= length (loose_candidates images board))%nat /\
      version_of tag <> "" /\
      Exists (fun p => occurs_in (version_of tag) (name p))
             (loose_candidates images board)) ->
   resolve_board_image images board tag = None).
Proof.
  intro Hs. rewrite (resolve_loose images board tag Hs).
  split; [|split; [|split]].
  - intro p. apply loose_candidates_spec.
  - intros c Hc. apply loose_phase_one. exact Hc.
  - intros c Hlen Hv Hc. rewrite loose_phase_many by assumption.
    apply truthy_true in Hv. rewrite Hv.
    unfold loose_candidates. rewrite find_filter.
    apply (find_first _ (fun p => loose_matches board (name p) /\
                                  occurs_in (version_of tag) (name p)));
      [|exact Hc].
    intro x. rewrite andb_true_iff, loose_pattern_spec, str_in_spec.
    reflexivity.
  - intros Hone Hnot.
    destruct (loose_candidates images board) as [|a [|b l]] eqn:Hc.
    + apply loose_phase_zero. exact Hc.
    + simpl in Hone. congruence.
    + rewrite loose_phase_many by (rewrite Hc; simpl; lia).
      destruct (truthy (version_of tag)) eqn:Hv; [|reflexivity].
      apply truthy_true in Hv. rewrite Hc.
      apply (find_nothing _ (fun p => occurs_in (version_of tag) (name p)));
        [intro x; apply str_in_spec|].
      apply Forall_Exists_neg. intro Hex. apply Hnot.
      repeat split; auto. simpl. lia.
Qed.

(** Two candidates for board [heltec-v3], no strict match: the one that
    mentions the version is returned. *)
Lemma C2_witness :
  strict_phase Sample.heltec_images "heltec-v3" (version_of "v2.7.11") = None /\
  resolve_board_image Sample.heltec_images "heltec-v3" "v2.7.11"
  = Some Sample.heltec_tft.
Proof.
  assert (Hs : strict_phase Sample.heltec_images "heltec-v3"
                            (version_of "v2.7.11") = None) by reflexivity.
  split; [exact Hs|].
  apply (proj1 (proj2 (proj2
           (C2_loose_phase Sample.heltec_images "heltec-v3" "v2.7.11" Hs)))).
  - vm_compute. lia.
  - vm_compute. discriminate.
  - exists [Sample.heltec_old], [Sample.other_board].
    split; [reflexivity|]. split.
    + constructor; [|constructor]. intros [_ H].
      apply str_in_spec in H. vm_compute in H. discriminate.
    + split.
      * apply loose_pattern_spec. reflexivity.
      * apply str_in_spec. reflexivity.
Defined.

(** C10.  A tag that is empty or made of [v]s only leaves an empty version:
    no strict pattern is built, the strict phase returns nothing, the result
    is that of the loose phase, and there the version cannot break a tie, so
    that two or more candidates give no image; a single candidate is still
    returned. *)
Theorem C10_empty_version (images : list Path) (board tag : string) :
  Forall (fun c => c = "v"%char) (list_ascii_of_string tag) ->
  version_of tag = "" /\
  strict board (version_of tag) = None /\
  strict_phase images board (version_of tag) = None /\
  resolve_board_image images board tag
  = loose_phase images board (version_of tag) /\
  (forall c, loose_candidates images board = [c] ->
             resolve_board_image images board tag = Some c) /\
  ((2 <= length (loose_candidates images board))%nat ->
   resolve_board_image images board tag = None) /\
  (loose_candidates images board = [] ->
   resolve_board_image images board tag = None).
Proof.
  intro Hv. apply lstrip_v_empty in Hv. fold (version_of tag) in Hv.
  assert (Hs : strict_phase images board (version_of tag) = None)
    by (rewrite Hv; reflexivity).
  rewrite (resolve_loose images board tag Hs).
  repeat split; auto.
  - rewrite Hv. reflexivity.
  - intros c Hc. apply loose_phase_one. exact Hc.
  - intro Hlen. rewrite loose_phase_many by assumption.
    rewrite Hv. reflexivity.
  - apply loose_phase_zero.
Qed.

(** Tag [vv] with two loose candidates, one of them named like the strict
    name for an empty version. *)
Lemma C10_witness :
  Forall (fun c => c = "v"%char) (list_ascii_of_string "vv") /\
  (2 <= length (loose_candidates Sample.x_images "x"))%nat /\
  resolve_board_image Sample.x_images "x" "vv" = None.
Proof.
  assert (Hv : Forall (fun c => c = "v"%char) (list_ascii_of_string "vv"))
    by (repeat constructor).
  assert (Hlen : (2 <= length (loose_candidates Sample.x_images "x"))%nat)
    by (vm_compute; lia).
  split; [exact Hv|]. split; [exact Hlen|].
  exact (proj1 (proj2 (proj2 (proj2 (proj2 (proj2
           (C10_empty_version Sample.x_images "x" "vv" Hv)))))) Hlen).
Defined.

(* ================================================================== *)
(** * Sorting by a key, largest first *)

Module KeySortFacts.

Section KeySort.
Context {A K : Type}.
Variable ltb : K -> K -> bool.
Variable key : A -> K.

Hypothesis ltb_irrefl : forall k, ltb k k = false.
Hypothesis ltb_asym : forall j k, ltb j k = true -> ltb k j = false.
Hypothesis ltb_trans :
  forall i j k, ltb i j = true -> ltb j k = true -> ltb i k = true.
Hypothesis geb_trans :
  forall i j k, ltb i j = false -> ltb j k = false -> ltb i k = false.

Lemma sort_key_reverse_perm (l : list A) :
  Permutation (sort_key_reverse ltb key l) l.
Proof. apply stable_sort_perm. Qed.

(** No element is followed by one with a larger key. *)
Lemma sort_key_reverse_sorted (l : list A) :
  StronglySorted (fun a b => ltb (key a) (key b) = false)
                 (sort_key_reverse ltb key l).
Proof.
  unfold sort_key_reverse. apply stable_sort_sorted.
  - intros a b. apply ltb_asym.
  - intros a b c. apply geb_trans.
Qed.

(** Elements with the same key keep the order of the input. *)
Lemma sort_key_reverse_stable (f : A -> bool) (l : list A) :
  (forall a b, f a = true -> f b = true -> key a = key b) ->
  filter f (sort_key_reverse ltb key l) = filter f l.
Proof.
  intro Hf. unfold sort_key_reverse. apply stable_sort_stable.
  intros a b Ha Hb. rewrite (Hf a b Ha Hb). apply ltb_irrefl.
Qed.

(** The first element has the largest key, and is the earliest such
    element of the input. *)
Lemma sort_key_reverse_head (l : list A) (h : A) (t : list A) :
  sort_key_reverse ltb key l = h :: t ->
  exists l1 l2,
    l = l1 ++ h :: l2 /\
    Forall (fun y => ltb (key y) (key h) = true) l1 /\
    Forall (fun y => ltb (key h) (key y) = false) l2.
Proof.
  unfold sort_key_reverse. intro H.
  apply stable_sort_head in H; auto.
  - intros a b c Hab Hbc. apply (ltb_trans _ _ _ Hbc Hab).
  - intros a b c. apply geb_trans.
Qed.

End KeySort.

Lemma StronglySorted_impl {A : Type} (R S : A -> A -> Prop) (l : list A) :
  (forall a b, R a b -> S a b) -> StronglySorted R l -> StronglySorted S l.
Proof.
  intros HRS H. induction H as [|a l _ IH Ha]; constructor; auto.
  eapply Forall_impl; [|exact Ha]. intros b. apply HRS.
Qed.

End KeySortFacts.

(* ================================================================== *)
(** * ReleaseCatalog *)

Module ReleaseCatalog.
Import KeySortFacts.

Lemma channel_filter_spec (alpha : bool) (r : Release) :
  channel_filter alpha r = true <-> prerelease r = alpha /\ draft r = false.
Proof.
  unfold channel_filter.
  destruct alpha, (prerelease r), (draft r); simpl; split;
    intros; try split; try congruence; try tauto.
  all: destruct H; congruence.
Qed.

Lemma has_key_spec (r : Release) : has_key r = true <-> sort_key r <> None.
Proof.
  unfold has_key. destruct (sort_key r); split; congruence.
Qed.

(** When every candidate has a time stamp, or there is nothing to compare,
    sorting succeeds. *)
Lemma sort_candidates_ok (candidates : list Release) :
  ((2 <= length candidates)%nat ->
   Forall (fun r => sort_key r <> None) candidates) ->
  sort_candidates candidates
  = Ok (sort_key_reverse String.ltb key_str candidates).
Proof.
  intro H. unfold sort_candidates.
  destruct (Nat.leb_spec 2 (length candidates)) as [Hlen|Hlen]; simpl;
    [|reflexivity].
  replace (forallb has_key candidates) with true; [reflexivity|].
  symmetry. apply forallb_forall. intros r Hr. apply has_key_spec.
  specialize (H Hlen). rewrite Forall_forall in H. auto.
Qed.

Lemma sort_candidates_perm (candidates sorted_candidates : list Release) :
  sort_candidates candidates = Ok sorted_candidates ->
  Permutation sorted_candidates candidates.
Proof.
  unfold sort_candidates.
  destruct ((2 <=? length candidates)%nat && negb (forallb has_key candidates));
    [discriminate|].
  intro H. injection H as <-. apply stable_sort_perm.
Qed.

(** What a successful search of the feed went through. *)
Lemma find_release_in_feed_ok (api : Provider) (previous alpha : bool)
      (r : Release) :
  find_release_in_feed api previous alpha = Ok r ->
  exists releases sorted_candidates,
    get_releases api = Ok releases /\
    sort_candidates (feed_candidates alpha releases)
    = Ok sorted_candidates /\
    nth_error sorted_candidates (if previous then 1 else 0)%nat = Some r.
Proof.
  unfold find_release_in_feed.
  destruct (get_releases api) as [releases|]; [|discriminate].
  destruct (feed_candidates alpha releases) as [|c cs] eqn:Hc;
    [discriminate|].
  destruct (sort_candidates (c :: cs)) as [sorted_candidates|] eqn:Hs;
    [|discriminate].
  destruct (length sorted_candidates <=? (if previous then 1 else 0))%nat;
    [discriminate|].
  destruct (nth_error sorted_candidates (if previous then 1 else 0)%nat)
    as [r'|] eqn:Hn; [|discriminate].
  intro H. injection H as ->. exists releases, sorted_candidates.
  rewrite Hc. repeat split; assumption.
Qed.

(** With an explicit tag the feed is not consulted. *)
Lemma find_release_tagged (api : Provider) (previous alpha : bool)
      (t : string) :
  t <> "" ->
  find_release api previous alpha (Some t) = get_release_by_tag api t.
Proof.
  intro H. unfold find_release. apply StrFacts.truthy_true in H.
  rewrite H. reflexivity.
Qed.

Lemma find_release_untagged (api : Provider) (previous alpha : bool)
      (tag : option string) :
  tag = None \/ tag = Some "" ->
  find_release api previous alpha tag = find_release_in_feed api previous alpha.
Proof. intros [-> | ->]; reflexivity. Qed.

End ReleaseCatalog.

Import KeySortFacts ReleaseCatalog.

(** C3, as the script has it.  Without an explicit tag (none, or an empty
    one), a release that [find_release] returns comes from the feed, is not
    a draft and belongs to the requested channel: a prerelease for [alpha],
    a regular release otherwise. *)
Theorem C3_feed_release_in_channel
        (api : Provider) (previous alpha : bool) (tag : option string)
        (r : Release) :
  tag = None \/ tag = Some "" ->
  find_release api previous alpha tag = Ok r ->
  draft r = false /\ prerelease r = alpha /\
  exists releases, get_releases api = Ok releases /\ In r releases.
Proof.
  intros Htag H. rewrite (find_release_untagged api previous alpha tag Htag) in H.
  apply find_release_in_feed_ok in H
    as (releases & sorted_candidates & Hfeed & Hsort & Hnth).
  apply nth_error_In in Hnth.
  apply sort_candidates_perm in Hsort.
  apply (Permutation_in _ Hsort) in Hnth.
  unfold feed_candidates in Hnth. apply filter_In in Hnth as [Hin Hch].
  apply channel_filter_spec in Hch as [Hp Hd].
  repeat split; auto. exists releases. auto.
Qed.

(** The stable channel of a feed with a draft and a prerelease in it. *)
Lemma C3_witness :
  (@None string = None \/ @None string = Some "") /\
  find_release Sample.feed_api false false None = Ok Sample.stable_new_a /\
  draft Sample.stable_new_a = false /\
  prerelease Sample.stable_new_a = false /\
  exists releases,
    get_releases Sample.feed_api = Ok releases /\
    In Sample.stable_new_a releases.
Proof.
  assert (Htag : @None string = None \/ @None string = Some "")
    by (left; reflexivity).
  assert (H : find_release Sample.feed_api false false None
              = Ok Sample.stable_new_a) by reflexivity.
  split; [exact Htag|]. split; [exact H|].
  exact (C3_feed_release_in_channel Sample.feed_api false false None
           Sample.stable_new_a Htag H).
Defined.

(** C3 fails as stated for an explicit tag: the stable channel is asked
    for, the tag names a prerelease, and the prerelease is returned. *)
Lemma C3_counterexample :
  find_release Sample.tagged_api false false (Some "v2.7.12-alpha")
  = Ok Sample.alpha_2_7_12 /\
  prerelease Sample.alpha_2_7_12 = true.
Proof. split; reflexivity. Qed.

(** C4.  With a non-empty candidate set in which every candidate has a
    time stamp (needed as soon as two candidates are compared), the
    candidates are put in descending order of their time stamp, candidates
    with equal time stamps staying in feed order; [find_release] returns
    the candidate at index 0, or at index 1 for [previous], and raises
    "not enough releases" when that index is not below the number of
    candidates. *)
Theorem C4_sorted_selection
        (api : Provider) (previous alpha : bool) (releases : list Release) :
  get_releases api = Ok releases ->
  feed_candidates alpha releases <> [] ->
  ((2 <= length (feed_candidates alpha releases))%nat ->
   Forall (fun r => sort_key r <> None) (feed_candidates alpha releases)) ->
  exists sorted_candidates,
    Permutation sorted_candidates (feed_candidates alpha releases) /\
    StronglySorted (fun a b => (key_str b <=? key_str a)%string = true)
                   sorted_candidates /\
    (forall k,
        filter (fun r => (key_str r =? k)%string) sorted_candidates
        = filter (fun r => (key_str r =? k)%string)
                 (feed_candidates alpha releases)) /\
    (((if previous then 1 else 0) < length (feed_candidates alpha releases))%nat ->
     exists r,
       nth_error sorted_candidates (if previous then 1 else 0)%nat = Some r /\
       find_release api previous alpha None = Ok r) /\
    ((length (feed_candidates alpha releases) <= (if previous then 1 else 0))%nat ->
     find_release api previous alpha None = Raise not_enough_releases).
Proof.
  intros Hfeed Hne Hkeys.
  exists (sort_key_reverse String.ltb key_str (feed_candidates alpha releases)).
  assert (Hlen : length (sort_key_reverse String.ltb key_str
                           (feed_candidates alpha releases))
                 = length (feed_candidates alpha releases))
    by apply stable_sort_length.
  assert (Hrun : find_release api previous alpha None
                 = if (length (feed_candidates alpha releases)
                       <=? (if previous then 1 else 0))%nat
                   then Raise not_enough_releases
                   else match nth_error
                                (sort_key_reverse String.ltb key_str
                                   (feed_candidates alpha releases))
                                (if previous then 1 else 0)%nat with
                        | Some r => Ok r
                        | None => Raise IndexError
                        end).
  { unfold find_release, find_release_in_feed. rewrite Hfeed.
    rewrite (sort_candidates_ok _ Hkeys), Hlen.
    destruct (feed_candidates alpha releases); [congruence|reflexivity]. }
  split; [apply sort_key_reverse_perm|].
  split.
  { eapply StronglySorted_impl;
      [|apply (sort_key_reverse_sorted String.ltb key_str
                 str_ltb_asym str_ge_trans)].
    intros a b. apply str_ltb_leb. }
  split.
  { intro k. apply (sort_key_reverse_stable String.ltb key_str str_ltb_irrefl).
    intros a b Ha Hb. apply String.eqb_eq in Ha, Hb. congruence. }
  split.
  - intro Hidx.
    destruct (nth_error (sort_key_reverse String.ltb key_str
                           (feed_candidates alpha releases))
                        (if previous then 1 else 0)%nat) as [r|] eqn:Hn.
    + exists r. split; [reflexivity|]. rewrite Hrun.
      destruct (Nat.leb_spec (length (feed_candidates alpha releases))
                             (if previous then 1 else 0)%nat); [lia|].
      reflexivity.
    + apply nth_error_None in Hn. lia.
  - intro Hidx. rewrite Hrun.
    destruct (Nat.leb_spec (length (feed_candidates alpha releases))
                           (if previous then 1 else 0)%nat); [reflexivity|lia].
Qed.

(** The previous stable release of a feed in which the two newest stable
    releases have the same time stamp. *)
Lemma C4_witness :
  get_releases Sample.feed_api = Ok Sample.feed_releases /\
  feed_candidates false Sample.feed_releases <> [] /\
  ((2 <= length (feed_candidates false Sample.feed_releases))%nat ->
   Forall (fun r => sort_key r <> None)
          (feed_candidates false Sample.feed_releases)) /\
  exists sorted_candidates,
    Permutation sorted_candidates (feed_candidates false Sample.feed_releases) /\
    StronglySorted (fun a b => (key_str b <=? key_str a)%string = true)
                   sorted_candidates /\
    (forall k,
        filter (fun r => (key_str r =? k)%string) sorted_candidates
        = filter (fun r => (key_str r =? k)%string)
                 (feed_candidates false Sample.feed_releases)) /\
    ((1 < length (feed_candidates false Sample.feed_releases))%nat ->
     exists r,
       nth_error sorted_candidates 1%nat = Some r /\
       find_release Sample.feed_api true false None = Ok r) /\
    ((length (feed_candidates false Sample.feed_releases) <= 1)%nat ->
     find_release Sample.feed_api true false None = Raise not_enough_releases).
Proof.
  assert (Hfeed : get_releases Sample.feed_api = Ok Sample.feed_releases)
    by reflexivity.
  assert (Hne : feed_candidates false Sample.feed_releases <> [])
    by (vm_compute; discriminate).
  assert (Hkeys : (2 <= length (feed_candidates false Sample.feed_releases))%nat ->
                  Forall (fun r => sort_key r <> None)
                         (feed_candidates false Sample.feed_releases))
    by (intros _; repeat constructor; vm_compute; discriminate).
  split; [exact Hfeed|]. split; [exact Hne|]. split; [exact Hkeys|].
  exact (C4_sorted_selection Sample.feed_api true false Sample.feed_releases
           Hfeed Hne Hkeys).
Defined.

(** On that feed: the newest stable release is the earlier of the two tied
    ones, the previous one is the later of them. *)
Example find_release_tie_latest :
  find_release Sample.feed_api false false None = Ok Sample.stable_new_a.
Proof. reflexivity. Qed.

Example find_release_tie_previous :
  find_release Sample.feed_api true false None = Ok Sample.stable_new_b.
Proof. reflexivity. Qed.

Example find_release_single_previous :
  find_release Sample.tagged_api true false None = Raise not_enough_releases.
Proof. reflexivity. Qed.

(* ================================================================== *)
(** * AssetSelector *)

Module AssetSelector.

Lemma platform_matches_spec (release : Release) (platform : string) (a : Asset) :
  In a (platform_matches release platform)
  <-> In a (assets release) /\ bundle_matches platform (asset_name a).
Proof.
  unfold platform_matches.
  apply (@filter_spec _ _ (fun x => bundle_matches platform (asset_name x))).
  intro x. apply asset_pattern_spec.
Qed.

Lemma Z_ltb_trans (i j k : Z) :
  (i <? j)%Z = true -> (j <? k)%Z = true -> (i <? k)%Z = true.
Proof. rewrite !Z.ltb_lt. lia. Qed.

Lemma Z_geb_trans (i j k : Z) :
  (i <? j)%Z = false -> (j <? k)%Z = false -> (i <? k)%Z = false.
Proof. rewrite !Z.ltb_ge. lia. Qed.

(** [a] is the earliest of the largest elements of [l]. *)
Lemma earliest_largest_unique (l1 l2 k1 k2 : list Asset) (a a' : Asset) :
  l1 ++ a :: l2 = k1 ++ a' :: k2 ->
  Forall (fun b => (asset_size b < asset_size a)%Z) l1 ->
  Forall (fun b => (asset_size b <= asset_size a)%Z) l2 ->
  Forall (fun b => (asset_size b < asset_size a')%Z) k1 ->
  Forall (fun b => (asset_size b <= asset_size a')%Z) k2 ->
  a = a'.
Proof.
  revert k1. induction l1 as [|b l1 IH]; intros [|c k1] E L1 L2 K1 K2;
    simpl in E.
  - congruence.
  - injection E as -> ->. exfalso.
    inversion K1 as [|? ? Hc _]; subst.
    rewrite Forall_forall in L2.
    specialize (L2 a' (in_elt a' k1 k2)). lia.
  - injection E as -> <-. exfalso.
    inversion L1 as [|? ? Hb _]; subst.
    rewrite Forall_forall in K2.
    specialize (K2 a (in_elt a l1 l2)). lia.
  - injection E as -> E. inversion L1; inversion K1; subst.
    eapply IH; eauto.
Qed.

(** When an asset matches, the one returned heads the sorted matches: it
    is preceded, in the release's order, by strictly smaller matches only
    and followed by matches that are not larger. *)
Lemma pick_asset_first_largest (release : Release) (platform : string) :
  platform_matches release platform <> [] ->
  exists a l1 l2,
    pick_asset_for_platform release platform = Ok a /\
    platform_matches release platform = l1 ++ a :: l2 /\
    Forall (fun b => (asset_size b < asset_size a)%Z) l1 /\
    Forall (fun b => (asset_size b <= asset_size a)%Z) l2.
Proof.
  intro Hne. unfold pick_asset_for_platform.
  destruct (sort_key_reverse Z.ltb asset_size (platform_matches release platform))
    as [|a t] eqn:Hs.
  - exfalso. apply Hne.
    apply Permutation_nil. rewrite <- Hs.
    apply KeySortFacts.sort_key_reverse_perm.
  - apply (KeySortFacts.sort_key_reverse_head Z.ltb asset_size Z_ltb_trans Z_geb_trans) in Hs
      as (l1 & l2 & Hm & H1 & H2).
    exists a, l1, l2.
    destruct (platform_matches release platform) as [|m ms]; [congruence|].
    repeat split; auto.
    + eapply Forall_impl; [|exact H1]. intros b Hb. apply Z.ltb_lt. exact Hb.
    + eapply Forall_impl; [|exact H2]. intros b Hb. apply Z.ltb_ge. exact Hb.
Qed.

End AssetSelector.

Import AssetSelector.

(** C5.  The matches are exactly the assets of the release whose name the
    bundle pattern accepts; without a match the call fails with "no
    firmware bundle found"; otherwise a match of the largest size is
    returned.  On the two assets of the example, the one of size 500 is
    returned. *)
Theorem C5_pick_largest_match (release : Release) (platform : string) :
  (forall a, In a (platform_matches release platform)
             <-> In a (assets release) /\
                 bundle_matches platform (asset_name a)) /\
  (platform_matches release platform = [] ->
   pick_asset_for_platform release platform
   = Raise (no_bundle_for_platform release platform)) /\
  (platform_matches release platform <> [] ->
   exists a,
     pick_asset_for_platform release platform = Ok a /\
     In a (platform_matches release platform) /\
     forall b, In b (platform_matches release platform) ->
               (asset_size b <= asset_size a)%Z) /\
  pick_asset_for_platform Sample.release_2_7 "esp32s3" = Ok Sample.debug_zip /\
  asset_size Sample.debug_zip = 500%Z.
Proof.
  split; [intro a; apply platform_matches_spec|].
  split; [intro H; unfold pick_asset_for_platform; rewrite H; reflexivity|].
  split; [|split; reflexivity].
  intro Hne.
  destruct (pick_asset_first_largest release platform Hne)
    as (a & l1 & l2 & Hp & Hm & H1 & H2).
  exists a. split; [exact Hp|]. rewrite Hm. split; [apply in_elt|].
  intros b Hb. apply in_app_or in Hb as [Hb|[<-|Hb]].
  - rewrite Forall_forall in H1. specialize (H1 b Hb). lia.
  - lia.
  - rewrite Forall_forall in H2. exact (H2 b Hb).
Qed.

(** C9.  Among the matches, the one that comes first in the release's
    asset order among those of the largest size is the one returned: if
    every match before [a] is strictly smaller and no match after it is
    larger, the result is [a]. *)
Theorem C9_size_tie_earliest
        (release : Release) (platform : string)
        (a : Asset) (l1 l2 : list Asset) :
  platform_matches release platform = l1 ++ a :: l2 ->
  Forall (fun b => (asset_size b < asset_size a)%Z) l1 ->
  Forall (fun b => (asset_size b <= asset_size a)%Z) l2 ->
  pick_asset_for_platform release platform = Ok a.
Proof.
  intros Hm H1 H2.
  assert (Hne : platform_matches release platform <> [])
    by (rewrite Hm; destruct l1; discriminate).
  destruct (pick_asset_first_largest release platform Hne)
    as (a' & k1 & k2 & Hp & Hm' & K1 & K2).
  rewrite Hp. f_equal. symmetry.
  rewrite Hm in Hm'.
  exact (earliest_largest_unique l1 l2 k1 k2 a a' Hm' H1 H2 K1 K2).
Qed.

(** Two matching bundles of 500 bytes after a smaller one: the first of
    the two is returned. *)
Lemma C9_witness :
  platform_matches Sample.release_tied "esp32s3"
  = [Sample.plain_zip] ++ Sample.debug_zip :: [Sample.extra_zip] /\
  Forall (fun b => (asset_size b < asset_size Sample.debug_zip)%Z)
         [Sample.plain_zip] /\
  Forall (fun b => (asset_size b <= asset_size Sample.debug_zip)%Z)
         [Sample.extra_zip] /\
  pick_asset_for_platform Sample.release_tied "esp32s3" = Ok Sample.debug_zip.
Proof.
  assert (Hm : platform_matches Sample.release_tied "esp32s3"
               = [Sample.plain_zip] ++ Sample.debug_zip :: [Sample.extra_zip])
    by reflexivity.
  assert (H1 : Forall (fun b => (asset_size b < asset_size Sample.debug_zip)%Z)
                      [Sample.plain_zip])
    by (repeat constructor).
  assert (H2 : Forall (fun b => (asset_size b <= asset_size Sample.debug_zip)%Z)
                      [Sample.extra_zip])
    by (repeat constructor; vm_compute; discriminate).
  split; [exact Hm|]. split; [exact H1|]. split; [exact H2|].
  exact (C9_size_tie_earliest Sample.release_tied "esp32s3" Sample.debug_zip
           [Sample.plain_zip] [Sample.extra_zip] Hm H1 H2).
Defined.

(* ================================================================== *)
(** * FlashOrchestrator *)

Module FlashOrchestrator.

Section Steps.
Variable returncode : list (list string * Env) -> list string -> Env -> Z.

(** A dry run of a command: one line of log, status 0, nothing started. *)
Lemma run_dry (cmd : list string) (env : Env) (verbose : bool) (w : World) :
  run returncode cmd env true verbose w
  = (Ok 0%Z,
     mkWorld (stdout w ++ [("+ " ++ join " " cmd)%string]) (stderr w) (stdin w)
             (spawned w)).
Proof.
  unfold run, bind, print, ret. rewrite orb_true_r. reflexivity.
Qed.

(** A real run starts the command and reports its status. *)
Lemma run_real (cmd : list string) (env : Env) (verbose : bool) (w : World) :
  fst (run returncode cmd env false verbose w)
  = Ok (returncode (spawned w) cmd env) /\
  spawned (snd (run returncode cmd env false verbose w))
  = spawned w ++ [(cmd, env)] /\
  stderr (snd (run returncode cmd env false verbose w)) = stderr w.
Proof.
  unfold run, bind, print, ret, subprocess_run.
  destruct verbose; simpl; auto.
Qed.

Lemma prepare_and_flash_differ (device_update chosen_path : Path) :
  flash_cmd device_update chosen_path
  <> change_mode_cmd device_update chosen_path.
Proof. unfold flash_cmd, change_mode_cmd. intro H. discriminate H. Qed.

End Steps.

End FlashOrchestrator.

Import FlashOrchestrator.

(** C6.  With the change-mode step requested, if its invocation returns a
    status [N] other than 0, [main] ends in [sys.exit(N)]: the run has
    failed, the exit status is [N], and the only command started is the
    change-mode one; the flash command is not started. *)
Theorem C6_failed_prepare_aborts
        (returncode : list (list string * Env) -> list string -> Env -> Z)
        (environ : Env) (esptool_port : string)
        (device_update chosen_path : Path) (dry_run verbose : bool)
        (w w' : World) (r : result unit) (N : Z) :
  fst (run returncode (change_mode_cmd device_update chosen_path)
           (flash_env environ esptool_port) dry_run verbose
           (snd (print "Step 1/2: Preparing flash (change mode)..." w)))
  = Ok N ->
  N <> 0%Z ->
  main_flash returncode environ esptool_port device_update chosen_path
             true dry_run verbose w = (r, w') ->
  r = Raise (SystemExit (ExitCode N)) /\
  outcome r = Failed /\
  exit_status r = N /\
  spawned w'
  = spawned w ++ [(change_mode_cmd device_update chosen_path,
                   flash_env environ esptool_port)] /\
  ~ In (flash_cmd device_update chosen_path)
       (map fst (skipn (length (spawned w)) (spawned w'))).
Proof.
  intros Hrun HN Hmain.
  destruct dry_run.
  - rewrite run_dry in Hrun. simpl in Hrun. congruence.
  - unfold main_flash, run, bind, print, eprint, sys_exit, raise, ret,
      subprocess_run in *.
    assert (Hrc : returncode (spawned w)
                    (change_mode_cmd device_update chosen_path)
                    (flash_env environ esptool_port) = N)
      by (destruct verbose; simpl in Hrun; congruence).
    assert (Hnz : (N =? 0)%Z = false) by (apply Z.eqb_neq; exact HN).
    destruct verbose; simpl in Hmain; rewrite Hrc, Hnz in Hmain;
      simpl in Hmain; injection Hmain as <- <-; simpl.
    all: repeat split; auto.
    all: try (destruct N; congruence).
    all: rewrite skipn_app, skipn_all, Nat.sub_diag; simpl.
    all: intros [H|[]]; symmetry in H;
      exact (prepare_and_flash_differ device_update chosen_path H).
Qed.

(** The example of the spec: the change-mode step exits with 5. *)
Lemma C6_witness :
  fst (run Sample.failing_prepare
           (change_mode_cmd Sample.script Sample.t3s3_image)
           (flash_env [] "/dev/ttyACM0") false false
           (snd (print "Step 1/2: Preparing flash (change mode)..."
                       Sample.idle)))
  = Ok 5%Z /\
  5%Z <> 0%Z /\
  exit_status
    (fst (main_flash Sample.failing_prepare [] "/dev/ttyACM0" Sample.script
                     Sample.t3s3_image true false false Sample.idle))
  = 5%Z /\
  spawned
    (snd (main_flash Sample.failing_prepare [] "/dev/ttyACM0" Sample.script
                     Sample.t3s3_image true false false Sample.idle))
  = [(change_mode_cmd Sample.script Sample.t3s3_image,
      flash_env [] "/dev/ttyACM0")].
Proof.
  assert (Hrun : fst (run Sample.failing_prepare
                        (change_mode_cmd Sample.script Sample.t3s3_image)
                        (flash_env [] "/dev/ttyACM0") false false
                        (snd (print "Step 1/2: Preparing flash (change mode)..."
                                    Sample.idle)))
                 = Ok 5%Z) by reflexivity.
  assert (HN : 5%Z <> 0%Z) by discriminate.
  pose proof (C6_failed_prepare_aborts Sample.failing_prepare []
                "/dev/ttyACM0" Sample.script Sample.t3s3_image false false
                Sample.idle _ _ 5%Z Hrun HN (surjective_pairing _))
    as (_ & _ & Hst & Hsp & _).
  split; [exact Hrun|]. split; [exact HN|]. split; [exact Hst|exact Hsp].
Defined.

(** C8.  In a dry run every command is logged as a line [+ <command>], is
    given status 0 and is not started; whatever the executor would have
    answered, [main] returns normally: the outcome is success, the exit
    status 0, no process was started, nothing was written to the error
    stream, and the log holds the flash command and, when requested, the
    change-mode command. *)
Theorem C8_dry_run_succeeds
        (returncode : list (list string * Env) -> list string -> Env -> Z)
        (environ : Env) (esptool_port : string)
        (device_update chosen_path : Path) (change_mode verbose : bool)
        (w : World) :
  (forall cmd env w0,
      run returncode cmd env true verbose w0
      = (Ok 0%Z,
         mkWorld (stdout w0 ++ [("+ " ++ join " " cmd)%string]) (stderr w0)
                 (stdin w0) (spawned w0))) /\
  fst (main_flash returncode environ esptool_port device_update chosen_path
                  change_mode true verbose w) = Ok tt /\
  outcome (fst (main_flash returncode environ esptool_port device_update
                           chosen_path change_mode true verbose w)) = Success /\
  exit_status (fst (main_flash returncode environ esptool_port device_update
                               chosen_path change_mode true verbose w)) = 0%Z /\
  spawned (snd (main_flash returncode environ esptool_port device_update
                           chosen_path change_mode true verbose w))
  = spawned w /\
  stderr (snd (main_flash returncode environ esptool_port device_update
                          chosen_path change_mode true verbose w))
  = stderr w /\
  In ("+ " ++ join " " (flash_cmd device_update chosen_path))%string
     (stdout (snd (main_flash returncode environ esptool_port device_update
                              chosen_path change_mode true verbose w))) /\
  (change_mode = true ->
   In ("+ " ++ join " " (change_mode_cmd device_update chosen_path))%string
      (stdout (snd (main_flash returncode environ esptool_port device_update
                               chosen_path change_mode true verbose w)))) /\
  (forall returncode',
      main_flash returncode' environ esptool_port device_update chosen_path
                 change_mode true verbose w
      = main_flash returncode environ esptool_port device_update chosen_path
                   change_mode true verbose w).
Proof.
  split; [intros cmd env w0; apply run_dry|].
  unfold main_flash, bind, print, eprint, sys_exit, raise, ret.
  destruct change_mode; simpl; rewrite ?run_dry; simpl;
    destruct verbose; simpl; rewrite ?run_dry; simpl.
  all: repeat split; auto.
  all: try (intro; discriminate).
  all: try (intros; rewrite !run_dry; reflexivity).
  all: rewrite !in_app_iff; simpl; tauto.
Qed.

(** Resolving a board against no image at all finds nothing. *)
Lemma resolve_board_image_nil (board tag : string) :
  resolve_board_image [] board tag = None.
Proof.
  unfold resolve_board_image, strict_phase, strict.
  destruct (truthy (version_of tag)); reflexivity.
Qed.

(** C7.  When the bundle holds no [*-update.bin] file, [list_update_bins]
    raises "no images found" and [main] stops there, whatever the board and
    the tag: nothing is printed and nothing is read, whereas resolving a
    board against an empty list would have reported that no image was
    found for the board and gone on to the prompt. *)
Theorem C7_no_images_is_fatal
        (tree : list Path) (board : option string) (tag : string) (w : World) :
  rglob_update_bin tree = [] ->
  list_update_bins tree = Raise no_images_found /\
  main_select_image tree board tag w = (Raise no_images_found, w) /\
  (forall b t, resolve_board_image [] b t = None).
Proof.
  intro H.
  assert (Hl : list_update_bins tree = Raise no_images_found)
    by (unfold list_update_bins; rewrite H; reflexivity).
  split; [exact Hl|]. split; [|exact resolve_board_image_nil].
  unfold main_select_image, bind, lift. rewrite Hl. reflexivity.
Qed.

(** A bundle with a script and a read-me but no image. *)
Lemma C7_witness :
  rglob_update_bin [Sample.script; Sample.in_bundle "README.md"] = [] /\
  main_select_image [Sample.script; Sample.in_bundle "README.md"]
                    (Some "x") "v1" Sample.idle
  = (Raise no_images_found, Sample.idle).
Proof.
  assert (H : rglob_update_bin [Sample.script; Sample.in_bundle "README.md"]
              = []) by reflexivity.
  split; [exact H|].
  exact (proj1 (proj2 (C7_no_images_is_fatal
                         [Sample.script; Sample.in_bundle "README.md"]
                         (Some "x") "v1" Sample.idle H))).
Defined.

(* ================================================================== *)
(** * The script on the examples of its documentation *)

(** [lstrip("v")] strips every leading [v], not just one. *)
Example version_of_strips_every_v :
  version_of "v2.7.11" = "2.7.11" /\ version_of "vv1.0" = "1.0" /\
  version_of "v" = "" /\ version_of "" = "".
Proof. repeat split. Qed.

(** The bundle's only image is found by the strict phase. *)
Example resolve_strict_example :
  resolve_board_image [Sample.t3s3_image] "tlora-t3s3-v1" "v2.7.11"
  = Some Sample.t3s3_image.
Proof. reflexivity. Qed.

(** The loose pattern wants something, possibly empty, between two hyphens:
    [firmware-<board>--update.bin] is a candidate,
    [firmware-<board>-update.bin] is not. *)
Example loose_pattern_needs_two_hyphens :
  re_match (loose_pattern "x") "firmware-x--update.bin" = true /\
  re_match (loose_pattern "x") "firmware-x-update.bin" = false /\
  resolve_board_image [Sample.in_bundle "firmware-tlora-t3s3-v1-update.bin"]
                      "tlora-t3s3-v1" "v2.7.11" = None.
Proof. repeat split. Qed.

(** Two loose candidates, neither of which mentions the version. *)
Example resolve_ambiguous_example :
  resolve_board_image Sample.x_images "x" "v2.7.11" = None.
Proof. reflexivity. Qed.

(** A real run in which the change-mode step succeeds and the flash step
    exits with 7. *)
Example flash_failure_example :
  exit_status
    (fst (main_flash
            (fun started _ _ => match started with [] => 0%Z | _ => 7%Z end)
            [] "/dev/ttyACM0" Sample.script Sample.t3s3_image
            true false false Sample.idle))
  = 7%Z.
Proof. reflexivity. Qed.

(* ================================================================== *)
(** * More facts about strings and lists *)

Module MoreStrFacts.

Lemma length_append (a b : string) :
  String.length (a ++ b) = (String.length a + String.length b)%nat.
Proof. induction a; simpl; congruence. Qed.

Lemma substring_0_all (s : string) : String.substring 0 (String.length s) s = s.
Proof. induction s; simpl; congruence. Qed.

Lemma substring_0_append (a b : string) :
  String.substring 0 (String.length a) (a ++ b) = a.
Proof.
  induction a as [|c a IH]; simpl.
  - destruct b; reflexivity.
  - congruence.
Qed.

Lemma substring_skip_append (a b : string) (m : nat) :
  String.substring (String.length a) m (a ++ b) = String.substring 0 m b.
Proof. induction a; simpl; auto. Qed.

Lemma substring_split (s : string) :
  forall n, (n <= String.length s)%nat ->
            s = (String.substring 0 n s
                 ++ String.substring n (String.length s - n) s)%string.
Proof.
  induction s as [|c s IH]; intros n Hn; simpl in *.
  - destruct n; reflexivity.
  - destruct n as [|n]; simpl.
    + rewrite substring_0_all. reflexivity.
    + f_equal. apply IH. lia.
Qed.

(** [endswith] decides being of the form [pre ++ suffix]. *)
Lemma endswith_spec (s suffix : string) :
  endswith s suffix = true <-> exists pre, s = (pre ++ suffix)%string.
Proof.
  unfold endswith. rewrite andb_true_iff, Nat.leb_le, String.eqb_eq. split.
  - intros [Hlen Hsub].
    exists (String.substring 0 (String.length s - String.length suffix) s).
    pose proof (substring_split s (String.length s - String.length suffix))
      as Hsplit.
    replace (String.length s - (String.length s - String.length suffix))%nat
      with (String.length suffix) in Hsplit by lia.
    rewrite Hsub in Hsplit. apply Hsplit. lia.
  - intros [pre ->]. rewrite length_append. split; [lia|].
    replace (String.length pre + String.length suffix - String.length suffix)%nat
      with (String.length pre) by lia.
    rewrite substring_skip_append. apply substring_0_all.
Qed.

(** A string equal, up to case, to a concatenation splits accordingly. *)
Lemma ci_eq_split (a b : string) :
  forall s, ci_eq s (a ++ b) ->
            exists p q, s = (p ++ q)%string /\ ci_eq p a /\ ci_eq q b.
Proof.
  unfold ci_eq. induction a as [|c a IH]; intros s H; simpl in *.
  - exists "", s. auto.
  - destruct s as [|d s]; simpl in H; [discriminate|].
    injection H as Hd Hs. destruct (IH s Hs) as (p & q & -> & Hp & Hq).
    exists (String d p), q. simpl. repeat split; congruence.
Qed.

Lemma ci_eq_append (a a' b b' : string) :
  ci_eq a a' -> ci_eq b b' -> ci_eq (a ++ b) (a' ++ b').
Proof.
  unfold ci_eq. intros Ha Hb. rewrite !str_lower_append. congruence.
Qed.

Lemma newline_lower (x : ascii) : x = newline -> lower x = newline.
Proof. intros ->. reflexivity. Qed.

(** Strings equal up to case have their newlines at the same places. *)
Lemma no_newline_ci (a b : string) :
  ci_eq a b -> no_newline b -> no_newline a.
Proof.
  unfold ci_eq, no_newline. revert b.
  induction a as [|c a IH]; intros [|d b] H Hb; simpl in *;
    try discriminate; [constructor|].
  injection H as Hc Ha. inversion Hb as [|? ? Hd Hb']; subst.
  constructor; [|eapply IH; eauto].
  intro Hn. apply Hd. apply lower_newline.
  rewrite <- Hc. apply newline_lower. exact Hn.
Qed.

Lemma no_newline_append (a b : string) :
  no_newline (a ++ b) <-> no_newline a /\ no_newline b.
Proof.
  unfold no_newline. rewrite list_of_append. apply Forall_app.
Qed.

(** Two tests that decide the same property are the same test. *)
Lemma bool_eq_of_iff (b1 b2 : bool) (P Q : Prop) :
  (b1 = true <-> P) -> (b2 = true <-> Q) -> (P <-> Q) -> b1 = b2.
Proof.
  intros H1 H2 HPQ. destruct b1, b2; try reflexivity.
  - symmetry. apply H2, HPQ, H1. reflexivity.
  - apply H1, HPQ, H2. reflexivity.
Qed.

Lemma find_ext {A : Type} (f g : A -> bool) (l : list A) :
  (forall x, f x = g x) -> find f l = find g l.
Proof.
  intro H. induction l as [|a l IH]; simpl; [reflexivity|].
  rewrite H, IH. reflexivity.
Qed.

Lemma literal_matches_ci (e e' s : string) :
  ci_eq e e' -> (literal_matches e s <-> literal_matches e' s).
Proof.
  unfold literal_matches, ci_eq. intro H.
  split; intros (body & tail & Hs & Hb & Ht); exists body, tail;
    repeat split; auto; congruence.
Qed.

Lemma wildcard_matches_ci (pre pre' suf s : string) :
  ci_eq pre pre' ->
  (wildcard_matches pre suf s <-> wildcard_matches pre' suf s).
Proof.
  unfold wildcard_matches, ci_eq. intro H.
  split; intros (p & m & x & tail & Hs & Hp & Hm & Hx & Ht);
    exists p, m, x, tail; repeat split; auto; congruence.
Qed.

End MoreStrFacts.

Import MoreStrFacts.

(* ================================================================== *)
(** * More on image resolution *)

Module MoreImageResolver.

Lemma strict_phase_hit (images : list Path) (board version : string) (q : Path) :
  strict_phase images board version = Some q ->
  version <> "" /\ In q images /\ strict_matches board version (name q).
Proof.
  unfold strict_phase, strict. destruct (truthy version) eqn:Hv; [|discriminate].
  intro H. apply find_some in H as [Hin Hm].
  apply truthy_true in Hv. apply strict_pattern_spec in Hm. auto.
Qed.

Lemma loose_phase_hit (images : list Path) (board version : string) (q : Path) :
  loose_phase images board version = Some q ->
  In q (loose_candidates images board).
Proof.
  unfold loose_phase.
  destruct (length (loose_candidates images board) =? 1)%nat.
  - intro H. apply nth_error_In in H. exact H.
  - destruct (1 <? length (loose_candidates images board))%nat; [|discriminate].
    destruct (truthy version); [|discriminate].
    intro H. apply find_some in H as [Hin _]. exact Hin.
Qed.

(** Unless the version holds a newline, a name the strict pattern accepts
    is also accepted by the loose one. *)
Lemma strict_matches_loose (board version s : string) :
  no_newline version -> strict_matches board version s -> loose_matches board s.
Proof.
  intros Hn (body & tail & -> & Hb & Ht).
  unfold expected_name in Hb.
  replace ("firmware-" ++ board ++ "-" ++ version ++ "-update.bin")%string
    with (("firmware-" ++ board ++ "-") ++ version ++ "-update.bin")%string
    in Hb by (simpl; rewrite !append_assoc; reflexivity).
  apply ci_eq_split in Hb as (p & rest & -> & Hp & Hrest).
  apply ci_eq_split in Hrest as (m & x & -> & Hm & Hx).
  exists p, m, x, tail. rewrite !append_assoc.
  repeat split; auto. eapply no_newline_ci; eauto.
Qed.

Lemma strict_pattern_ci (board board' version s : string) :
  ci_eq board board' ->
  re_match (strict_pattern board version) s
  = re_match (strict_pattern board' version) s.
Proof.
  intro H.
  apply (bool_eq_of_iff _ _ _ _ (strict_pattern_spec board version s)
                        (strict_pattern_spec board' version s)).
  apply literal_matches_ci. unfold expected_name.
  apply (ci_eq_append "firmware-" "firmware-"); [reflexivity|].
  apply ci_eq_append; [exact H|reflexivity].
Qed.

Lemma loose_pattern_ci (board board' s : string) :
  ci_eq board board' ->
  re_match (loose_pattern board) s = re_match (loose_pattern board') s.
Proof.
  intro H.
  apply (bool_eq_of_iff _ _ _ _ (loose_pattern_spec board s)
                        (loose_pattern_spec board' s)).
  apply wildcard_matches_ci.
  apply (ci_eq_append "firmware-" "firmware-"); [reflexivity|].
  apply ci_eq_append; [exact H|reflexivity].
Qed.

End MoreImageResolver.

Import MoreImageResolver.

(** X1.  Whatever [resolve_board_image] returns is one of the images it
    was given, and its name is accepted by the strict pattern or by the
    loose pattern for that board. *)
Theorem resolve_returns_listed_match
        (images : list Path) (board tag : string) (q : Path) :
  resolve_board_image images board tag = Some q ->
  In q images /\
  (strict_matches board (version_of tag) (name q) \/
   loose_matches board (name q)).
Proof.
  unfold resolve_board_image.
  destruct (strict_phase images board (version_of tag)) as [p|] eqn:Hs.
  - intro H. injection H as ->.
    apply strict_phase_hit in Hs as (_ & Hin & Hm). auto.
  - intro H. apply loose_phase_hit in H.
    apply loose_candidates_spec in H as [Hin Hm]. auto.
Qed.

Lemma resolve_returns_listed_match_witness :
  resolve_board_image Sample.heltec_images "heltec-v3" "v2.7.11"
  = Some Sample.heltec_tft /\
  In Sample.heltec_tft Sample.heltec_images /\
  (strict_matches "heltec-v3" (version_of "v2.7.11") (name Sample.heltec_tft) \/
   loose_matches "heltec-v3" (name Sample.heltec_tft)).
Proof.
  assert (H : resolve_board_image Sample.heltec_images "heltec-v3" "v2.7.11"
              = Some Sample.heltec_tft) by reflexivity.
  split; [exact H|].
  exact (resolve_returns_listed_match Sample.heltec_images "heltec-v3"
           "v2.7.11" Sample.heltec_tft H).
Defined.

(** X2.  The board is matched without regard to case: two spellings of a
    board that differ in case only select the same image. *)
Theorem resolve_board_case_insensitive
        (images : list Path) (board board' tag : string) :
  ci_eq board board' ->
  resolve_board_image images board tag = resolve_board_image images board' tag.
Proof.
  intro H.
  assert (Hs : strict_phase images board (version_of tag)
               = strict_phase images board' (version_of tag)).
  { unfold strict_phase, strict. destruct (truthy (version_of tag)); auto.
    apply find_ext. intro x. apply strict_pattern_ci. exact H. }
  assert (Hc : loose_candidates images board = loose_candidates images board').
  { unfold loose_candidates. apply filter_ext.
    intro x. apply loose_pattern_ci. exact H. }
  unfold resolve_board_image, loose_phase. rewrite Hs, Hc. reflexivity.
Qed.

Lemma resolve_board_case_insensitive_witness :
  ci_eq "Heltec-V3" "heltec-v3" /\
  resolve_board_image Sample.heltec_images "Heltec-V3" "v2.7.11"
  = resolve_board_image Sample.heltec_images "heltec-v3" "v2.7.11".
Proof.
  assert (H : ci_eq "Heltec-V3" "heltec-v3") by reflexivity.
  split; [exact H|].
  exact (resolve_board_case_insensitive Sample.heltec_images "Heltec-V3"
           "heltec-v3" "v2.7.11" H).
Defined.

(** X3.  For a tag whose version holds no newline, the image returned is
    always one of the loose candidates; so a bundle with exactly one image
    for the board yields that image whatever the tag, and a bundle with
    none yields nothing. *)
Theorem resolve_within_loose_candidates
        (images : list Path) (board tag : string) :
  no_newline (version_of tag) ->
  (forall q, resolve_board_image images board tag = Some q ->
             In q (loose_candidates images board)) /\
  (forall c, loose_candidates images board = [c] ->
             resolve_board_image images board tag = Some c) /\
  (loose_candidates images board = [] ->
   resolve_board_image images board tag = None).
Proof.
  intro Hn.
  assert (Hq : forall q, resolve_board_image images board tag = Some q ->
                         In q (loose_candidates images board)).
  { intros q. unfold resolve_board_image.
    destruct (strict_phase images board (version_of tag)) as [p|] eqn:Hs.
    - intro H. injection H as ->.
      apply strict_phase_hit in Hs as (_ & Hin & Hm).
      apply loose_candidates_spec. split; [exact Hin|].
      eapply strict_matches_loose; eauto.
    - apply loose_phase_hit. }
  split; [exact Hq|]. split.
  - intros c Hc.
    destruct (strict_phase images board (version_of tag)) as [p|] eqn:Hs.
    + pose proof (resolve_strict images board tag Hs) as Hr.
      rewrite Hr. f_equal. apply Hq in Hr. rewrite Hc in Hr.
      destruct Hr as [<-|[]]. reflexivity.
    + rewrite (resolve_loose images board tag Hs).
      apply loose_phase_one. exact Hc.
  - intro Hc.
    destruct (resolve_board_image images board tag) as [q|] eqn:Hr;
      [|reflexivity].
    specialize (Hq q eq_refl). rewrite Hc in Hq. destruct Hq.
Qed.

Lemma resolve_within_loose_candidates_witness :
  no_newline (version_of "v9.9.9") /\
  loose_candidates [Sample.heltec_old; Sample.other_board] "heltec-v3"
  = [Sample.heltec_old] /\
  resolve_board_image [Sample.heltec_old; Sample.other_board]
                      "heltec-v3" "v9.9.9"
  = Some Sample.heltec_old.
Proof.
  assert (Hn : no_newline (version_of "v9.9.9"))
    by (repeat constructor; discriminate).
  assert (Hc : loose_candidates [Sample.heltec_old; Sample.other_board]
                                "heltec-v3" = [Sample.heltec_old])
    by reflexivity.
  split; [exact Hn|]. split; [exact Hc|].
  exact (proj1 (proj2 (resolve_within_loose_candidates
                         [Sample.heltec_old; Sample.other_board]
                         "heltec-v3" "v9.9.9" Hn))
               Sample.heltec_old Hc).
Defined.

(* ================================================================== *)
(** * The order on paths and the image list *)

Module PathFacts.

Lemma str_ltb_total (a b : string) :
  String.ltb a b = false -> a <> b -> String.ltb b a = true.
Proof.
  unfold String.ltb. rewrite (String.compare_antisym b a).
  destruct (String.compare a b) eqn:E; simpl; try congruence.
  intros _ Hne. apply String.compare_eq_iff in E. contradiction.
Qed.

Lemma str_ltb_trans (a b c : string) :
  String.ltb a b = true -> String.ltb b c = true -> String.ltb a c = true.
Proof.
  unfold String.ltb. intros Hab Hbc.
  destruct (String.compare a b) eqn:Eab; try discriminate.
  destruct (String.compare b c) eqn:Ebc; try discriminate.
  rewrite (str_compare_lt_trans _ _ _ Eab Ebc). reflexivity.
Qed.

Lemma str_ltb_neq (a b : string) : String.ltb a b = true -> a <> b.
Proof. intros H ->. rewrite str_ltb_irrefl in H. discriminate. Qed.

(** How two non-empty lists of components compare. *)
Lemma parts_ltb_cons (x y : string) (a b : list string) :
  parts_ltb (x :: a) (y :: b) = true
  <-> String.ltb x y = true \/ (x = y /\ parts_ltb a b = true).
Proof.
  simpl. rewrite orb_true_iff, andb_true_iff, String.eqb_eq. reflexivity.
Qed.

Lemma parts_ltb_cons_false (x y : string) (a b : list string) :
  parts_ltb (x :: a) (y :: b) = false
  <-> String.ltb y x = true \/ (x = y /\ parts_ltb a b = false).
Proof.
  simpl. rewrite orb_false_iff, andb_false_iff, String.eqb_neq. split.
  - intros [Hlt [Hne|Hrec]].
    + left. apply str_ltb_total; assumption.
    + destruct (string_dec x y) as [->|Hne]; [right; auto|].
      left. apply str_ltb_total; assumption.
  - intros [Hlt|[-> Hrec]].
    + split; [apply str_ltb_asym; exact Hlt|].
      left. intros ->. rewrite str_ltb_irrefl in Hlt. discriminate.
    + split; [apply str_ltb_irrefl|]. right. exact Hrec.
Qed.

Lemma parts_ltb_asym (a : list string) :
  forall b, parts_ltb a b = true -> parts_ltb b a = false.
Proof.
  induction a as [|x a IH]; intros [|y b] H; try reflexivity;
    try discriminate.
  apply parts_ltb_cons in H. apply parts_ltb_cons_false.
  destruct H as [H|[-> H]]; [left; exact H|right; auto].
Qed.

Lemma parts_ltb_trans (a : list string) :
  forall b c, parts_ltb a b = true -> parts_ltb b c = true ->
              parts_ltb a c = true.
Proof.
  induction a as [|x a IH]; intros [|y b] [|z c] Hab Hbc;
    try reflexivity; try discriminate.
  apply parts_ltb_cons in Hab, Hbc. apply parts_ltb_cons.
  destruct Hab as [Hab|[-> Hab]], Hbc as [Hbc|[-> Hbc]]; auto.
  - left. eapply str_ltb_trans; eauto.
  - right. split; [reflexivity|]. eapply IH; eauto.
Qed.

Lemma parts_geb_trans (a : list string) :
  forall b c, parts_ltb b a = false -> parts_ltb c b = false ->
              parts_ltb c a = false.
Proof.
  induction a as [|x a IH]; intros [|y b] [|z c] Hba Hcb;
    try reflexivity; try discriminate.
  apply parts_ltb_cons_false in Hba, Hcb. apply parts_ltb_cons_false.
  destruct Hba as [Hba|[-> Hba]], Hcb as [Hcb|[-> Hcb]]; auto.
  - left. eapply str_ltb_trans; eauto.
  - right. split; [reflexivity|]. eapply IH; eauto.
Qed.

Lemma path_eqb_spec (p q : Path) : path_eqb p q = true <-> p = q.
Proof.
  unfold path_eqb. destruct p as [a], q as [b]. simpl.
  destruct (list_eq_dec string_dec a b); split; congruence.
Qed.

Lemma exists_on_spec (disk : Disk) (p : Path) :
  exists_on disk p = true <-> In p disk.
Proof.
  unfold exists_on. rewrite existsb_exists. split.
  - intros (q & Hin & Heq). apply path_eqb_spec in Heq. subst. exact Hin.
  - intro Hin. exists p. split; [exact Hin|]. apply path_eqb_spec. reflexivity.
Qed.

Lemma exists_on_false (disk : Disk) (p : Path) :
  exists_on disk p = false <-> ~ In p disk.
Proof.
  rewrite <- exists_on_spec. destruct (exists_on disk p); split; congruence.
Qed.

(** An image [list_update_bins] returns is a file of the bundle whose
    name ends in [-update.bin]. *)
Lemma listed_image (tree bins : list Path) (p : Path) :
  list_update_bins tree = Ok bins -> In p bins ->
  In p tree /\ exists stem, name p = (stem ++ "-update.bin")%string.
Proof.
  unfold list_update_bins.
  destruct (sorted path_ltb (rglob_update_bin tree)) as [|b bs] eqn:Hs;
    [discriminate|].
  intros H Hin. injection H as <-. rewrite <- Hs in Hin.
  apply (Permutation_in _ (stable_sort_perm path_ltb (rglob_update_bin tree)))
    in Hin.
  unfold rglob_update_bin in Hin. apply filter_In in Hin as [Hin He].
  split; [exact Hin|]. apply endswith_spec. exact He.
Qed.

End PathFacts.

Import PathFacts.

(** X4.  When [list_update_bins] returns, its list is not empty, holds
    exactly the files of the bundle whose name ends in [-update.bin] (each
    as often as the bundle lists it), and is in ascending path order. *)
Theorem list_update_bins_sorted_images (tree bins : list Path) :
  list_update_bins tree = Ok bins ->
  bins <> [] /\
  Permutation bins (rglob_update_bin tree) /\
  StronglySorted (fun p q => path_ltb q p = false) bins /\
  (forall p, In p bins
             <-> In p tree /\
                 exists stem, name p = (stem ++ "-update.bin")%string).
Proof.
  unfold list_update_bins.
  destruct (sorted path_ltb (rglob_update_bin tree)) as [|b bs] eqn:Hs;
    [discriminate|].
  intro H. injection H as <-. rewrite <- Hs.
  assert (Hperm : Permutation (sorted path_ltb (rglob_update_bin tree))
                              (rglob_update_bin tree))
    by apply stable_sort_perm.
  split; [rewrite Hs; discriminate|]. split; [exact Hperm|]. split.
  - unfold sorted. apply stable_sort_sorted.
    + intros p q. apply parts_ltb_asym.
    + intros p q r Hpq Hqr. unfold path_ltb in *.
      eapply parts_geb_trans; eauto.
  - intro p. split.
    + intro Hin. apply (Permutation_in _ Hperm) in Hin.
      unfold rglob_update_bin in Hin. apply filter_In in Hin as [Hin He].
      split; [exact Hin|]. apply endswith_spec. exact He.
    + intros [Hin He]. apply (Permutation_in _ (Permutation_sym Hperm)).
      unfold rglob_update_bin. apply filter_In. split; [exact Hin|].
      apply endswith_spec. exact He.
Qed.

Lemma list_update_bins_sorted_images_witness :
  list_update_bins [Sample.script; Sample.x_a; Sample.x_blank]
  = Ok [Sample.x_blank; Sample.x_a] /\
  StronglySorted (fun p q => path_ltb q p = false) [Sample.x_blank; Sample.x_a].
Proof.
  assert (H : list_update_bins [Sample.script; Sample.x_a; Sample.x_blank]
              = Ok [Sample.x_blank; Sample.x_a]) by reflexivity.
  split; [exact H|].
  exact (proj1 (proj2 (proj2 (list_update_bins_sorted_images _ _ H)))).
Defined.

(** X5.  On the images [list_update_bins] returns, a hit of the strict
    phase bears the expected name up to case: the newline that [$] lets
    through cannot end a name that ends in [-update.bin]. *)
Theorem strict_hit_on_listed_images
        (tree images : list Path) (board version : string) (q : Path) :
  list_update_bins tree = Ok images ->
  strict_phase images board version = Some q ->
  ci_eq (name q) (expected_name board version).
Proof.
  intros Hl Hs.
  apply strict_phase_hit in Hs as (_ & Hin & (body & tail & Hn & Hb & Ht)).
  apply (listed_image tree images q Hl) in Hin as [_ [stem Hstem]].
  destruct Ht as [->| ->].
  - rewrite append_nil_r in Hn. rewrite Hn. exact Hb.
  - exfalso. rewrite Hn in Hstem.
    apply (f_equal list_ascii_of_string) in Hstem.
    rewrite !list_of_append in Hstem.
    change (list_ascii_of_string "-update.bin")
      with (list_ascii_of_string "-update.bi" ++ ["n"%char]) in Hstem.
    change (list_ascii_of_string nl) with [newline] in Hstem.
    rewrite app_assoc in Hstem. apply app_inj_tail in Hstem as [_ Hc].
    discriminate Hc.
Qed.

Lemma strict_hit_on_listed_images_witness :
  list_update_bins [Sample.script; Sample.t3s3_image] = Ok [Sample.t3s3_image] /\
  strict_phase [Sample.t3s3_image] "TLORA-T3S3-V1" "2.7.11"
  = Some Sample.t3s3_image /\
  ci_eq (name Sample.t3s3_image) (expected_name "TLORA-T3S3-V1" "2.7.11").
Proof.
  assert (Hl : list_update_bins [Sample.script; Sample.t3s3_image]
               = Ok [Sample.t3s3_image]) by reflexivity.
  assert (Hs : strict_phase [Sample.t3s3_image] "TLORA-T3S3-V1" "2.7.11"
               = Some Sample.t3s3_image) by reflexivity.
  split; [exact Hl|]. split; [exact Hs|].
  exact (strict_hit_on_listed_images _ _ _ _ _ Hl Hs).
Defined.

(** X6.  [find_device_update_sh] returns a file of the bundle named
    [device-update.sh]; it prefers the one directly in the extraction
    directory, wherever [rglob] lists it; and it fails, with its own
    message, exactly when the bundle has no file of that name. *)
Theorem find_device_update_sh_spec (extract_dir : Path) (tree : list Path) :
  (forall p, find_device_update_sh extract_dir tree = Ok p ->
             In p tree /\ name p = "device-update.sh") /\
  (In (path_join extract_dir "device-update.sh") tree ->
   find_device_update_sh extract_dir tree
   = Ok (path_join extract_dir "device-update.sh")) /\
  (forall e, find_device_update_sh extract_dir tree = Raise e ->
             e = no_device_update_sh) /\
  (find_device_update_sh extract_dir tree = Raise no_device_update_sh
   <-> forall p, In p tree -> name p <> "device-update.sh").
Proof.
  assert (Hname : name (path_join extract_dir "device-update.sh")
                  = "device-update.sh").
  { unfold path_join, name. simpl. apply last_last. }
  unfold find_device_update_sh.
  destruct (exists_on tree (path_join extract_dir "device-update.sh")) eqn:He.
  - apply exists_on_spec in He. repeat split; try discriminate; auto.
    + injection H as <-. exact He.
    + injection H as <-. exact Hname.
    + intros H. exfalso. exact (H _ He Hname).
  - apply exists_on_false in He.
    destruct (filter (fun p => (name p =? "device-update.sh")%string) tree)
      as [|p ps] eqn:Hf.
    + repeat split; try discriminate; try contradiction; auto.
      * intros e H. injection H as <-. reflexivity.
      * intros _ p Hin Hn.
        assert (Hp : In p (filter (fun p => (name p =? "device-update.sh")%string)
                                  tree))
          by (apply filter_In; split; [exact Hin|apply String.eqb_eq; exact Hn]).
        rewrite Hf in Hp. destruct Hp.
    + assert (Hp : In p tree /\ name p = "device-update.sh").
      { assert (Hin : In p (filter (fun p => (name p =? "device-update.sh")%string)
                                   tree)) by (rewrite Hf; left; reflexivity).
        apply filter_In in Hin as [Hin Hn]. apply String.eqb_eq in Hn. auto. }
      repeat split; try discriminate; try contradiction.
      * injection H as <-. tauto.
      * injection H as <-. tauto.
      * intro H. exfalso. destruct Hp as [Hin Hn]. exact (H p Hin Hn).
Qed.

(* ================================================================== *)
(** * Permission bits *)

Module ModeFacts.

Lemma testbit_ixusr (n : Z) : Z.testbit S_IXUSR n = (n =? 6)%Z.
Proof.
  change S_IXUSR with (2 ^ 6)%Z. rewrite Z.pow2_bits_eqb by lia.
  apply Z.eqb_sym.
Qed.

Lemma testbit_ixgrp (n : Z) : Z.testbit S_IXGRP n = (n =? 3)%Z.
Proof.
  change S_IXGRP with (2 ^ 3)%Z. rewrite Z.pow2_bits_eqb by lia.
  apply Z.eqb_sym.
Qed.

Lemma testbit_ixoth (n : Z) : Z.testbit S_IXOTH n = (n =? 0)%Z.
Proof.
  change S_IXOTH with (2 ^ 0)%Z. rewrite Z.pow2_bits_eqb by lia.
  apply Z.eqb_sym.
Qed.

Lemma chmod_plus_x_testbit (mode n : Z) :
  Z.testbit (chmod_plus_x mode) n
  = Z.testbit mode n || (n =? 6)%Z || (n =? 3)%Z || (n =? 0)%Z.
Proof.
  unfold chmod_plus_x.
  rewrite !Z.lor_spec, testbit_ixusr, testbit_ixgrp, testbit_ixoth.
  reflexivity.
Qed.

(** The test of [main]: [mode & S_IXUSR] is zero when bit 6 is clear. *)
Lemma land_ixusr_zero (mode : Z) :
  (Z.land mode S_IXUSR =? 0)%Z = negb (Z.testbit mode 6).
Proof.
  destruct (Z.testbit mode 6) eqn:Hb; simpl.
  - apply Z.eqb_neq. intro H.
    apply (f_equal (fun z => Z.testbit z 6)) in H.
    rewrite Z.land_spec, Hb, testbit_ixusr, Z.bits_0 in H. discriminate.
  - apply Z.eqb_eq. apply Z.bits_inj'. intros n _.
    rewrite Z.land_spec, testbit_ixusr, Z.bits_0.
    destruct (Z.eqb_spec n 6) as [->|]; [rewrite Hb|]; auto using andb_false_r.
Qed.

End ModeFacts.

Import ModeFacts.

(** X7.  [chmod_plus_x] turns on the three execute bits (owner, group,
    others), leaves every other bit of the mode as it was, and applying it
    twice is applying it once. *)
Theorem chmod_plus_x_sets_execute_bits (mode : Z) :
  Z.testbit (chmod_plus_x mode) 6 = true /\
  Z.testbit (chmod_plus_x mode) 3 = true /\
  Z.testbit (chmod_plus_x mode) 0 = true /\
  (forall n, n <> 6%Z -> n <> 3%Z -> n <> 0%Z ->
             Z.testbit (chmod_plus_x mode) n = Z.testbit mode n) /\
  chmod_plus_x (chmod_plus_x mode) = chmod_plus_x mode.
Proof.
  repeat split.
  - rewrite chmod_plus_x_testbit. destruct (Z.testbit mode _); reflexivity.
  - rewrite chmod_plus_x_testbit. destruct (Z.testbit mode _); reflexivity.
  - rewrite chmod_plus_x_testbit. destruct (Z.testbit mode _); reflexivity.
  - intros n H6 H3 H0. rewrite chmod_plus_x_testbit.
    apply Z.eqb_neq in H6, H3, H0. rewrite H6, H3, H0, !orb_false_r.
    reflexivity.
  - apply Z.bits_inj'. intros n _. rewrite !chmod_plus_x_testbit.
    destruct (Z.testbit mode n), (n =? 6)%Z, (n =? 3)%Z, (n =? 0)%Z;
      reflexivity.
Qed.

(** X8.  After the check in [main] the script is executable by its owner
    and no permission bit has been cleared.  A mode that already has the
    owner's execute bit is left exactly as it is, whatever the group's and
    the others' execute bits are; any other mode gets all three. *)
Theorem main_make_executable_spec (mode : Z) :
  Z.testbit (main_make_executable mode) 6 = true /\
  (forall n, Z.testbit mode n = true ->
             Z.testbit (main_make_executable mode) n = true) /\
  (Z.testbit mode 6 = true -> main_make_executable mode = mode) /\
  (Z.testbit mode 6 = false ->
   main_make_executable mode = chmod_plus_x mode).
Proof.
  unfold main_make_executable. rewrite land_ixusr_zero.
  fold (chmod_plus_x mode).
  destruct (Z.testbit mode 6) eqn:Hb; cbn [negb]; repeat split;
    try discriminate; auto.
  - rewrite chmod_plus_x_testbit. destruct (Z.testbit mode _); reflexivity.
  - intros n Hn. rewrite chmod_plus_x_testbit, Hn. reflexivity.
Qed.

(* ================================================================== *)
(** * The environment and the opening checks *)

Module EnvFacts.

Lemma env_get_set_same (env : Env) (k v : string) :
  env_get (env_set env k v) k = Some v.
Proof.
  unfold env_get, env_set. simpl. rewrite String.eqb_refl. reflexivity.
Qed.

Lemma env_get_filter_other (env : Env) (k k' : string) :
  k' <> k ->
  env_get (filter (fun kv => negb (fst kv =? k)%string) env) k'
  = env_get env k'.
Proof.
  intro Hne. unfold env_get. induction env as [|[a b] env IH]; simpl.
  - reflexivity.
  - destruct (String.eqb_spec a k) as [->|Hak]; simpl.
    + apply String.eqb_neq in Hne. rewrite String.eqb_sym, Hne. exact IH.
    + destruct (a =? k')%string; [reflexivity|exact IH].
Qed.

Lemma env_get_set_other (env : Env) (k v k' : string) :
  k' <> k -> env_get (env_set env k v) k' = env_get env k'.
Proof.
  intro Hne. unfold env_set.
  transitivity (env_get (filter (fun kv => negb (fst kv =? k)%string) env) k').
  - unfold env_get at 1. simpl.
    destruct (String.eqb_spec k k') as [->|_]; [contradiction|reflexivity].
  - apply env_get_filter_other. exact Hne.
Qed.

End EnvFacts.

Import EnvFacts.

(** X9.  Setting a variable and reading it back gives the value set, and
    no other variable is affected; so the environment handed to the
    flashing script has [ESPTOOL_PORT] equal to the port and every other
    variable as in the environment of the script. *)
Theorem flash_env_pins_port (environ : Env) (esptool_port : string) :
  env_get (flash_env environ esptool_port) "ESPTOOL_PORT" = Some esptool_port /\
  (forall k, k <> "ESPTOOL_PORT" ->
             env_get (flash_env environ esptool_port) k = env_get environ k) /\
  flash_env (flash_env environ esptool_port) esptool_port
  = flash_env environ esptool_port.
Proof.
  unfold flash_env. split; [apply env_get_set_same|]. split.
  - intros k Hk. apply env_get_set_other. exact Hk.
  - unfold env_set. simpl. f_equal.
    induction environ as [|[a b] env IH]; simpl; [reflexivity|].
    destruct (a =? "ESPTOOL_PORT")%string eqn:Ha; simpl; [exact IH|].
    rewrite Ha. simpl. f_equal. exact IH.
Qed.

(** X10.  The port: a non-empty [--port] wins over the environment and is
    written into it; without one the environment's value is used; with
    neither, two lines go to the error stream and the script exits with
    status 2.  A port that is returned is never empty and is the value of
    [ESPTOOL_PORT] in the environment returned. *)
Theorem main_port_precedence
        (port_arg : option string) (environ : Env) (w : World) :
  (forall p, port_arg = Some p -> p <> "" ->
             main_port port_arg environ w
             = (Ok (env_set environ "ESPTOOL_PORT" p, p), w)) /\
  (port_arg = None \/ port_arg = Some "" ->
   forall p, env_get environ "ESPTOOL_PORT" = Some p -> p <> "" ->
             main_port port_arg environ w = (Ok (environ, p), w)) /\
  (port_arg = None \/ port_arg = Some "" ->
   env_get environ "ESPTOOL_PORT" = None \/
   env_get environ "ESPTOOL_PORT" = Some "" ->
   fst (main_port port_arg environ w) = Raise (SystemExit (ExitCode 2)) /\
   length (stderr (snd (main_port port_arg environ w)))
   = (length (stderr w) + 2)%nat /\
   stdout (snd (main_port port_arg environ w)) = stdout w) /\
  (forall env' p w',
      main_port port_arg environ w = (Ok (env', p), w') ->
      p <> "" /\ env_get env' "ESPTOOL_PORT" = Some p /\ w' = w).
Proof.
  split; [|split; [|split]].
  - intros p -> Hp. unfold main_port. apply truthy_true in Hp.
    rewrite Hp, env_get_set_same, Hp. reflexivity.
  - intros Harg p Hget Hp. unfold main_port. apply truthy_true in Hp.
    destruct Harg as [-> | ->];
      [|change (truthy "") with false]; cbv iota zeta;
      rewrite Hget, Hp; reflexivity.
  - intros Harg Hget. unfold main_port.
    destruct Harg as [-> | ->];
      [|change (truthy "") with false]; cbv iota zeta;
      destruct Hget as [-> | ->];
      try (change (truthy "") with false; cbv iota);
      unfold bind, eprint, sys_exit, raise; simpl;
      rewrite ?length_app; simpl; repeat split; lia.
  - intros env' p w'. unfold main_port.
    set (e := match port_arg with
              | Some p0 => if truthy p0
                           then env_set environ "ESPTOOL_PORT" p0 else environ
              | None => environ
              end).
    destruct (env_get e "ESPTOOL_PORT") as [q|] eqn:Hq;
      [|unfold bind, eprint, sys_exit, raise; simpl; discriminate].
    destruct (truthy q) eqn:Ht;
      [|unfold bind, eprint, sys_exit, raise; simpl; discriminate].
    unfold ret. intro H. injection H as <- <- <-.
    apply truthy_true in Ht. auto.
Qed.

(** X11.  The opening checks exit with status 2 when the port is missing,
    whether or not the tool is installed; with status 3 when the port is
    there and neither [esptool.py] nor [esptool] is found; and otherwise
    return the first of the two that [which] finds, [esptool.py] first. *)
Theorem main_preflight_exit_codes
        (port_arg : option string) (environ : Env)
        (which : string -> option string) (w : World) :
  (forall e w1, main_port port_arg environ w = (Raise e, w1) ->
                main_preflight port_arg environ which w = (Raise e, w1) /\
                e = SystemExit (ExitCode 2)) /\
  (forall env p w1, main_port port_arg environ w = (Ok (env, p), w1) ->
     ((which "esptool.py" = None \/ which "esptool.py" = Some "") ->
      (which "esptool" = None \/ which "esptool" = Some "") ->
      exit_status (fst (main_preflight port_arg environ which w)) = 3%Z) /\
     (forall t, which "esptool.py" = Some t -> t <> "" ->
                main_preflight port_arg environ which w = (Ok (env, p, t), w1)) /\
     (forall t, (which "esptool.py" = None \/ which "esptool.py" = Some "") ->
                which "esptool" = Some t -> t <> "" ->
                main_preflight port_arg environ which w
                = (Ok (env, p, t), w1))).
Proof.
  split.
  - intros e w1 H. unfold main_preflight, bind. rewrite H. split; [reflexivity|].
    unfold main_port in H.
    destruct (env_get _ "ESPTOOL_PORT") as [q|];
      [destruct (truthy q); [unfold ret in H; discriminate|]|];
      unfold bind, eprint, sys_exit, raise in H; simpl in H; congruence.
  - intros env p w1 H. unfold main_preflight, bind. rewrite H.
    unfold main_esptool, ensure_esptool_in_path, first_which.
    repeat split.
    + intros [-> | ->] [-> | ->]; reflexivity.
    + intros t -> Ht. apply truthy_true in Ht. rewrite Ht. reflexivity.
    + intros t [-> | ->] -> Ht; apply truthy_true in Ht; simpl;
        rewrite Ht; reflexivity.
Qed.

(* ================================================================== *)
(** * More on the flash steps *)

(** X12.  A real run without the change-mode step starts the flash
    command and nothing else, and exits with the status of that command.
    With the change-mode step, once that step has returned 0, the flash
    command is started second and its status, as returned after the
    change-mode command, is the exit status.  In every real run the outcome
    is success exactly when the exit status is 0. *)
Theorem main_flash_real_run
        (returncode : list (list string * Env) -> list string -> Env -> Z)
        (environ : Env) (esptool_port : string)
        (device_update chosen_path : Path) (verbose : bool) (w : World) :
  (exit_status (fst (main_flash returncode environ esptool_port device_update
                                chosen_path false false verbose w))
   = returncode (spawned w) (flash_cmd device_update chosen_path)
                (flash_env environ esptool_port) /\
   spawned (snd (main_flash returncode environ esptool_port device_update
                            chosen_path false false verbose w))
   = spawned w ++ [(flash_cmd device_update chosen_path,
                    flash_env environ esptool_port)]) /\
  (returncode (spawned w) (change_mode_cmd device_update chosen_path)
              (flash_env environ esptool_port) = 0%Z ->
   exit_status (fst (main_flash returncode environ esptool_port device_update
                                chosen_path true false verbose w))
   = returncode (spawned w ++ [(change_mode_cmd device_update chosen_path,
                                flash_env environ esptool_port)])
                (flash_cmd device_update chosen_path)
                (flash_env environ esptool_port) /\
   spawned (snd (main_flash returncode environ esptool_port device_update
                            chosen_path true false verbose w))
   = spawned w ++ [(change_mode_cmd device_update chosen_path,
                    flash_env environ esptool_port);
                   (flash_cmd device_update chosen_path,
                    flash_env environ esptool_port)]) /\
  (forall change_mode,
      outcome (fst (main_flash returncode environ esptool_port device_update
                               chosen_path change_mode false verbose w))
      = Success
      <-> exit_status
            (fst (main_flash returncode environ esptool_port device_update
                             chosen_path change_mode false verbose w))
          = 0%Z).
Proof.
  split; [|split].
  - unfold main_flash, run, bind, print, eprint, sys_exit, raise, ret,
      subprocess_run.
    destruct verbose; simpl;
      destruct (returncode (spawned w) (flash_cmd device_update chosen_path)
                           (flash_env environ esptool_port) =? 0)%Z eqn:E;
      simpl; split; try reflexivity;
      apply Z.eqb_eq in E; congruence.
  - intro H0.
    unfold main_flash, run, bind, print, eprint, sys_exit, raise, ret,
      subprocess_run.
    destruct verbose; simpl; rewrite H0; simpl;
      match goal with
      | |- context [(?rc =? 0)%Z] => destruct (rc =? 0)%Z eqn:E
      end; simpl; rewrite <- ?app_assoc; simpl; split; try reflexivity;
      apply Z.eqb_eq in E; congruence.
  - intro change_mode.
    unfold main_flash, run, bind, print, eprint, sys_exit, raise, ret,
      subprocess_run.
    destruct change_mode, verbose; simpl;
      repeat match goal with
             | |- context [(?rc =? 0)%Z] =>
                 let E := fresh "E" in
                 destruct (Z.eqb_spec rc 0) as [E|E]; simpl;
                 try rewrite E
             end;
      split; intro H; try reflexivity; try congruence;
      match goal with
      | _ : ?rc <> 0%Z |- _ => destruct rc; simpl in *; congruence
      end.
Qed.

(** X13.  Whatever the arguments, the flash steps do not read the
    terminal, start at most two processes, in the order change-mode then
    flash, and give each of them the environment with the port pinned; a
    dry run starts none. *)
Theorem main_flash_processes
        (returncode : list (list string * Env) -> list string -> Env -> Z)
        (environ : Env) (esptool_port : string)
        (device_update chosen_path : Path)
        (change_mode dry_run verbose : bool) (w : World) :
  stdin (snd (main_flash returncode environ esptool_port device_update
                         chosen_path change_mode dry_run verbose w))
  = stdin w /\
  exists started,
    spawned (snd (main_flash returncode environ esptool_port device_update
                             chosen_path change_mode dry_run verbose w))
    = spawned w ++ started /\
    (started = [] \/
     started = [(flash_cmd device_update chosen_path,
                 flash_env environ esptool_port)] \/
     started = [(change_mode_cmd device_update chosen_path,
                 flash_env environ esptool_port)] \/
     started = [(change_mode_cmd device_update chosen_path,
                 flash_env environ esptool_port);
                (flash_cmd device_update chosen_path,
                 flash_env environ esptool_port)]) /\
    (dry_run = true -> started = []) /\
    (change_mode = false ->
     ~ In (change_mode_cmd device_update chosen_path) (map fst started)).
Proof.
  unfold main_flash, run, bind, print, eprint, sys_exit, raise, ret,
    subprocess_run.
  destruct change_mode, dry_run, verbose; simpl;
    repeat match goal with
           | |- context [(?rc =? 0)%Z] => destruct (rc =? 0)%Z; simpl
           end;
    (split; [reflexivity|]);
    rewrite <- ?app_assoc; simpl;
    first
      [ exists []; rewrite app_nil_r; split; [reflexivity|]
      | eexists; split; [reflexivity|] ];
    (split; [tauto|]); split; try discriminate; try tauto;
    intros _; simpl; intros [H|[]];
    exact (prepare_and_flash_differ device_update chosen_path H).
Qed.

(* ================================================================== *)
(** * Choosing the image *)

Module SelectFacts.

Lemma input_reads (prompt line : string) (rest : list string) (w : World) :
  stdin w = line :: rest ->
  input prompt w
  = (Ok line, mkWorld (stdout w ++ [prompt]) (stderr w) rest (spawned w)).
Proof. unfold input. intros ->. reflexivity. Qed.

Lemma input_eof (prompt : string) (w : World) :
  stdin w = [] ->
  input prompt w
  = (Raise EOFError, mkWorld (stdout w ++ [prompt]) (stderr w) [] (spawned w)).
Proof. unfold input. intros ->. reflexivity. Qed.

(** The loop over the lines typed. *)
Lemma prompt_exact_filename_spec (images : list Path) :
  forall pending w r w',
    stdin w = pending ->
    prompt_exact_filename images pending w = (r, w') ->
    spawned w' = spawned w /\
    stderr w' = stderr w /\
    (forall p, r = Ok p ->
               filter (fun q => (name q =? name p)%string) images = [p] /\
               name p <> "" /\
               exists line, In line pending /\ strip line = name p) /\
    (forall e, r = Raise e -> e = EOFError /\ stdin w' = []).
Proof.
  induction pending as [|line rest IH]; intros w r w' Hin Hrun.
  - simpl in Hrun. unfold bind in Hrun. rewrite (input_eof _ w Hin) in Hrun.
    injection Hrun as <- <-. simpl.
    split; [reflexivity|]. split; [reflexivity|].
    split; [intros p Hp; discriminate|].
    intros e He. injection He as <-. split; reflexivity.
  - simpl in Hrun. unfold bind at 1 in Hrun.
    rewrite (input_reads _ _ _ w Hin) in Hrun.
    destruct (truthy (strip line)) eqn:Ht; simpl in Hrun.
    + destruct (filter (fun p => (name p =? strip line)%string) images)
        as [|m [|m' ms]] eqn:Hf.
      * unfold bind, print in Hrun. simpl in Hrun.
        apply IH in Hrun; [|reflexivity]. simpl in Hrun.
        destruct Hrun as (Hs & He & Hok & Hr).
        split; [exact Hs|]. split; [exact He|]. split; [|exact Hr].
        intros p Hp. destruct (Hok p Hp) as (Hf' & Hn & l & Hl & Hst).
        split; [exact Hf'|]. split; [exact Hn|].
        exists l. split; [right; exact Hl|exact Hst].
      * unfold ret in Hrun. injection Hrun as <- <-. simpl.
        assert (Hm : name m = strip line).
        { assert (Hi : In m (filter (fun p => (name p =? strip line)%string)
                                    images)) by (rewrite Hf; left; reflexivity).
          apply filter_In in Hi as [_ Hi]. apply String.eqb_eq. exact Hi. }
        split; [reflexivity|]. split; [reflexivity|].
        split; [|intros e He; discriminate].
        intros p Hp. injection Hp as <-. rewrite Hm.
        split; [exact Hf|]. split; [apply truthy_true; exact Ht|].
        exists line. split; [left; reflexivity|reflexivity].
      * unfold bind, print in Hrun. simpl in Hrun.
        apply IH in Hrun; [|reflexivity]. simpl in Hrun.
        destruct Hrun as (Hs & He & Hok & Hr).
        split; [exact Hs|]. split; [exact He|]. split; [|exact Hr].
        intros p Hp. destruct (Hok p Hp) as (Hf' & Hn & l & Hl & Hst).
        split; [exact Hf'|]. split; [exact Hn|].
        exists l. split; [right; exact Hl|exact Hst].
    + unfold bind, print in Hrun. simpl in Hrun.
      apply IH in Hrun; [|reflexivity]. simpl in Hrun.
      destruct Hrun as (Hs & He & Hok & Hr).
      split; [exact Hs|]. split; [exact He|]. split; [|exact Hr].
      intros p Hp. destruct (Hok p Hp) as (Hf' & Hn & l & Hl & Hst).
      split; [exact Hf'|]. split; [exact Hn|].
      exists l. split; [right; exact Hl|exact Hst].
Qed.

Lemma print_images_quiet (images : list Path) :
  forall i w,
    fst (print_images i images w) = Ok tt /\
    stdin (snd (print_images i images w)) = stdin w /\
    stderr (snd (print_images i images w)) = stderr w /\
    spawned (snd (print_images i images w)) = spawned w.
Proof.
  induction images as [|p images IH]; intros i w; simpl.
  - auto.
  - unfold bind, print. simpl.
    destruct (IH (S i) (mkWorld (stdout w ++ [("  " ++ fmt_2d i ++ ". " ++ name p)%string])
                                (stderr w) (stdin w) (spawned w)))
      as (H1 & H2 & H3 & H4).
    simpl in *. auto.
Qed.

End SelectFacts.

Import SelectFacts.

Module SelectCases.

Lemma resolve_hit_in (images : list Path) (board tag : string) (q : Path) :
  resolve_board_image images board tag = Some q -> In q images.
Proof.
  unfold resolve_board_image.
  destruct (strict_phase images board (version_of tag)) as [p|] eqn:Hs.
  - intro H. injection H as ->. apply strict_phase_hit in Hs. tauto.
  - intro H. apply loose_phase_hit in H.
    apply loose_candidates_spec in H. tauto.
Qed.

(** The list is shown, then the prompt runs on the lines not yet read. *)
Lemma interactive_tail (images : list Path) (w0 w' : World) (r : result Path) :
  (print (nl ++ "Available update binaries in this bundle:" ++ nl) ;;
   print_images 1 images ;;
   (fun w => prompt_exact_filename images (stdin w) w)) w0 = (r, w') ->
  exists w1,
    stdin w1 = stdin w0 /\ stderr w1 = stderr w0 /\ spawned w1 = spawned w0 /\
    prompt_exact_filename images (stdin w1) w1 = (r, w').
Proof.
  unfold bind at 1. unfold print at 1. unfold bind at 1.
  set (w1 := mkWorld _ (stderr w0) (stdin w0) (spawned w0)).
  destruct (print_images_quiet images 1 w1) as (Hok & Hin & Herr & Hsp).
  destruct (print_images 1 images w1) as [r2 w2]. simpl in *. subst r2.
  intro H. exists w2. auto.
Qed.

End SelectCases.

Import SelectCases.

(** X14.  However [main] comes to an image, automatically or at the
    prompt, the image is a file of the bundle whose name ends in
    [-update.bin]; choosing it starts no process; and the only ways to
    fail are an empty bundle and the end of the input. *)
Theorem main_select_image_in_bundle
        (tree : list Path) (board : option string) (tag : string)
        (w w' : World) (r : result Path) :
  main_select_image tree board tag w = (r, w') ->
  spawned w' = spawned w /\
  (forall p, r = Ok p ->
             In p tree /\
             exists stem, name p = (stem ++ "-update.bin")%string) /\
  (forall e, r = Raise e -> e = no_images_found \/ e = EOFError).
Proof.
  unfold main_select_image. unfold bind at 1. unfold lift.
  destruct (list_update_bins tree) as [images|e0] eqn:Hl.
  - assert (Hprompt :
        forall w0, spawned w0 = spawned w ->
          (print (nl ++ "Available update binaries in this bundle:" ++ nl) ;;
           print_images 1 images ;;
           (fun w => prompt_exact_filename images (stdin w) w)) w0 = (r, w') ->
          spawned w' = spawned w /\
          (forall p, r = Ok p ->
                     In p tree /\
                     exists stem, name p = (stem ++ "-update.bin")%string) /\
          (forall e, r = Raise e -> e = no_images_found \/ e = EOFError)).
    { intros w0 Hw0 H.
      apply interactive_tail in H as (w1 & _ & _ & Hsp & H).
      apply (prompt_exact_filename_spec images _ w1 r w' eq_refl) in H
        as (Hs & _ & Hok & Hr).
      split; [congruence|]. split.
      - intros p Hp. destruct (Hok p Hp) as (Hf & _).
        apply (listed_image tree images p Hl).
        assert (Hi : In p (filter (fun q => (name q =? name p)%string) images))
          by (rewrite Hf; left; reflexivity).
        apply filter_In in Hi. tauto.
      - intros e He. right. apply (Hr e He). }
    destruct board as [b|]; [destruct (truthy b)|].
    + destruct (resolve_board_image images (strip b) tag) as [p|] eqn:Hr.
      * unfold bind, ret. intro H. injection H as <- <-.
        split; [reflexivity|]. split; [|intros e He; discriminate].
        intros q Hq. injection Hq as <-.
        apply (listed_image tree images p Hl).
        eapply resolve_hit_in; eauto.
      * unfold bind at 1. unfold bind at 1. unfold eprint, ret.
        apply Hprompt. reflexivity.
    + unfold bind at 1. unfold ret at 1. apply Hprompt. reflexivity.
    + unfold bind at 1. unfold ret at 1. apply Hprompt. reflexivity.
  - intro H. injection H as <- <-.
    split; [reflexivity|]. split; [intros p Hp; discriminate|].
    intros e He. injection He as <-. left.
    unfold list_update_bins in Hl.
    destruct (sorted path_ltb (rglob_update_bin tree)); congruence.
Qed.

Lemma main_select_image_in_bundle_witness :
  main_select_image [Sample.script; Sample.x_a; Sample.x_blank]
                    (Some "heltec-v3") "v2.7.11"
                    (mkWorld [] [] ["  firmware-x-a-update.bin "] [])
  = (Ok Sample.x_a,
     snd (main_select_image [Sample.script; Sample.x_a; Sample.x_blank]
                            (Some "heltec-v3") "v2.7.11"
                            (mkWorld [] [] ["  firmware-x-a-update.bin "] []))) /\
  In Sample.x_a [Sample.script; Sample.x_a; Sample.x_blank].
Proof.
  assert (H : main_select_image [Sample.script; Sample.x_a; Sample.x_blank]
                (Some "heltec-v3") "v2.7.11"
                (mkWorld [] [] ["  firmware-x-a-update.bin "] [])
              = (Ok Sample.x_a,
                 snd (main_select_image
                        [Sample.script; Sample.x_a; Sample.x_blank]
                        (Some "heltec-v3") "v2.7.11"
                        (mkWorld [] [] ["  firmware-x-a-update.bin "] []))))
    by reflexivity.
  split; [exact H|].
  exact (proj1 (proj1 (proj2 (main_select_image_in_bundle _ _ _ _ _ _ H))
                      Sample.x_a eq_refl)).
Defined.

Module SelectSilent.




End SelectSilent.

Import SelectSilent.



(** X16.  At the prompt an image is taken only for a line that, once
    stripped, is not empty and is the name, letter for letter, of exactly
    one image of the list; every other line is answered and the prompt
    repeats, until the input ends with [EOFError].  Nothing goes to the
    error stream and no process is started. *)
Theorem prompt_takes_exact_unique_name
        (images : list Path) (w w' : World) (r : result Path) :
  prompt_exact_filename images (stdin w) w = (r, w') ->
  spawned w' = spawned w /\
  stderr w' = stderr w /\
  (forall p, r = Ok p ->
             filter (fun q => (name q =? name p)%string) images = [p] /\
             name p <> "" /\
             exists line, In line (stdin w) /\ strip line = name p) /\
  (forall e, r = Raise e -> e = EOFError /\ stdin w' = []).
Proof.
  apply prompt_exact_filename_spec. reflexivity.
Qed.

Lemma prompt_takes_exact_unique_name_witness :
  prompt_exact_filename Sample.x_images
    (stdin (mkWorld [] [] [""; "FIRMWARE-X-A-UPDATE.BIN";
                            "firmware-x-a-update.bin"] []))
    (mkWorld [] [] [""; "FIRMWARE-X-A-UPDATE.BIN"; "firmware-x-a-update.bin"] [])
  = (Ok Sample.x_a,
     snd (prompt_exact_filename Sample.x_images
            [""; "FIRMWARE-X-A-UPDATE.BIN"; "firmware-x-a-update.bin"]
            (mkWorld [] [] [""; "FIRMWARE-X-A-UPDATE.BIN";
                            "firmware-x-a-update.bin"] []))) /\
  filter (fun q => (name q =? name Sample.x_a)%string) Sample.x_images
  = [Sample.x_a].
Proof.
  assert (H : prompt_exact_filename Sample.x_images
                (stdin (mkWorld [] [] [""; "FIRMWARE-X-A-UPDATE.BIN";
                                        "firmware-x-a-update.bin"] []))
                (mkWorld [] [] [""; "FIRMWARE-X-A-UPDATE.BIN";
                                "firmware-x-a-update.bin"] [])
              = (Ok Sample.x_a,
                 snd (prompt_exact_filename Sample.x_images
                        [""; "FIRMWARE-X-A-UPDATE.BIN"; "firmware-x-a-update.bin"]
                        (mkWorld [] [] [""; "FIRMWARE-X-A-UPDATE.BIN";
                                        "firmware-x-a-update.bin"] []))))
    by reflexivity.
  split; [exact H|].
  exact (proj1 (proj1 (proj2 (proj2
           (prompt_takes_exact_unique_name _ _ _ _ H))) Sample.x_a eq_refl)).
Defined.

(* ================================================================== *)
(** * More on the release catalog *)

Module MoreReleaseCatalog.

(** What remains of [find_release] once the feed is there and holds a
    candidate. *)
Lemma find_release_feed_run
      (api : Provider) (previous alpha : bool) (releases : list Release) :
  get_releases api = Ok releases ->
  feed_candidates alpha releases <> [] ->
  find_release api previous alpha None
  = match sort_candidates (feed_candidates alpha releases) with
    | Raise e => Raise e
    | Ok sorted_candidates =>
        if (length sorted_candidates <=? (if previous then 1 else 0))%nat
        then Raise not_enough_releases
        else match nth_error sorted_candidates
                             (if previous then 1 else 0)%nat with
             | Some r => Ok r
             | None => Raise IndexError
             end
    end.
Proof.
  intros Hfeed Hne. unfold find_release, find_release_in_feed. rewrite Hfeed.
  destruct (feed_candidates alpha releases); [congruence|reflexivity].
Qed.

Lemma sort_candidates_cases (candidates : list Release) :
  sort_candidates candidates = Raise TypeError \/
  sort_candidates candidates
  = Ok (sort_key_reverse String.ltb key_str candidates).
Proof.
  unfold sort_candidates.
  destruct ((2 <=? length candidates)%nat && negb (forallb has_key candidates));
    auto.
Qed.

Lemma sort_key_reverse_length {A K : Type} (ltb : K -> K -> bool)
      (key : A -> K) (l : list A) :
  length (sort_key_reverse ltb key l) = length l.
Proof. apply stable_sort_length. Qed.

End MoreReleaseCatalog.

Import MoreReleaseCatalog.

(** X17.  Without a tag, an error of the feed is passed on as it is; "no
    suitable releases" is raised exactly when the feed has no release of
    the channel that is not a draft; and "not enough releases" exactly when
    the previous release is asked for and the channel has a single
    candidate. *)
Theorem find_release_errors (api : Provider) (previous alpha : bool) :
  (forall e, get_releases api = Raise e ->
             find_release api previous alpha None = Raise e) /\
  (forall releases, get_releases api = Ok releases ->
     (find_release api previous alpha None = Raise no_suitable_releases
      <-> feed_candidates alpha releases = []) /\
     (find_release api previous alpha None = Raise not_enough_releases
      <-> previous = true /\
          length (feed_candidates alpha releases) = 1%nat)).
Proof.
  split.
  - intros e He. unfold find_release, find_release_in_feed. rewrite He.
    reflexivity.
  - intros releases Hfeed.
    destruct (feed_candidates alpha releases) as [|c cs] eqn:Hc.
    + assert (Hrun : find_release api previous alpha None
                     = Raise no_suitable_releases).
      { unfold find_release, find_release_in_feed. rewrite Hfeed, Hc.
        reflexivity. }
      rewrite Hrun. split; split; auto; try discriminate.
      intros [_ H]. discriminate H.
    + assert (Hne : feed_candidates alpha releases <> [])
        by (rewrite Hc; discriminate).
      rewrite (find_release_feed_run api previous alpha releases Hfeed Hne), Hc.
      destruct (sort_candidates_cases (c :: cs)) as [Hs|Hs]; rewrite Hs.
      * split; split; try discriminate.
        intros [-> Hlen]. exfalso. unfold sort_candidates in Hs.
        simpl in Hlen. destruct cs; [|discriminate]. simpl in Hs.
        discriminate.
      * rewrite sort_key_reverse_length.
        destruct (nth_error (sort_key_reverse String.ltb key_str (c :: cs))
                            (if previous then 1 else 0)%nat) eqn:Hn;
          destruct previous; simpl length; simpl Nat.leb;
          try (destruct cs; simpl Nat.leb);
          split; split; try discriminate; try tauto;
          try (intros [H1 H2]; discriminate); try (intros _; split; reflexivity).
Qed.

(** X18.  Without a tag, when the channel has candidates and they have
    time stamps, the latest release returned is a candidate whose time
    stamp no candidate exceeds; and with two candidates or more, the latest
    and the previous release are two of them, the previous one no newer
    than the latest and no older than any of the others. *)
Theorem find_release_most_recent
        (api : Provider) (alpha : bool) (releases : list Release) :
  get_releases api = Ok releases ->
  feed_candidates alpha releases <> [] ->
  Forall (fun r => sort_key r <> None) (feed_candidates alpha releases) ->
  exists latest,
    find_release api false alpha None = Ok latest /\
    In latest (feed_candidates alpha releases) /\
    (forall c, In c (feed_candidates alpha releases) ->
               (key_str c <=? key_str latest)%string = true) /\
    ((2 <= length (feed_candidates alpha releases))%nat ->
     exists prev rest,
       find_release api true alpha None = Ok prev /\
       Permutation (latest :: prev :: rest) (feed_candidates alpha releases) /\
       (key_str prev <=? key_str latest)%string = true /\
       Forall (fun c => (key_str c <=? key_str prev)%string = true) rest).
Proof.
  intros Hfeed Hne Hkeys.
  pose proof (sort_key_reverse_perm String.ltb key_str
                (feed_candidates alpha releases)) as Hperm.
  pose proof (sort_key_reverse_sorted String.ltb key_str
                str_ltb_asym str_ge_trans (feed_candidates alpha releases))
    as Hsorted.
  pose proof (sort_key_reverse_length String.ltb key_str
                (feed_candidates alpha releases)) as Hlen.
  assert (Hrun : forall previous,
             find_release api previous alpha None
             = if (length (feed_candidates alpha releases)
                   <=? (if previous then 1 else 0))%nat
               then Raise not_enough_releases
               else match nth_error
                            (sort_key_reverse String.ltb key_str
                               (feed_candidates alpha releases))
                            (if previous then 1 else 0)%nat with
                    | Some r => Ok r
                    | None => Raise IndexError
                    end).
  { intro previous.
    rewrite (find_release_feed_run api previous alpha releases Hfeed Hne).
    rewrite (sort_candidates_ok _ (fun _ => Hkeys)), Hlen. reflexivity. }
  destruct (sort_key_reverse String.ltb key_str (feed_candidates alpha releases))
    as [|latest tl] eqn:Hs.
  { exfalso. apply Hne. apply Permutation_nil. exact Hperm. }
  exists latest.
  inversion Hsorted as [|? ? Htl Hhd]; subst.
  assert (Hpos : (1 <= length (feed_candidates alpha releases))%nat)
    by (rewrite <- Hlen; simpl; lia).
  split.
  { rewrite Hrun.
    destruct (Nat.leb_spec (length (feed_candidates alpha releases)) 0);
      [lia|reflexivity]. }
  split; [apply (Permutation_in _ Hperm); left; reflexivity|].
  split.
  { intros c Hc. apply (Permutation_in _ (Permutation_sym Hperm)) in Hc.
    destruct Hc as [<-|Hc].
    - apply str_ltb_leb, str_ltb_irrefl.
    - rewrite Forall_forall in Hhd. apply str_ltb_leb. apply Hhd. exact Hc. }
  intro H2. destruct tl as [|prev rest]; [simpl in Hlen; lia|].
  exists prev, rest. inversion Htl as [|? ? _ Hprev]; subst.
  split.
  { rewrite Hrun.
    destruct (Nat.leb_spec (length (feed_candidates alpha releases)) 1);
      [lia|reflexivity]. }
  split; [exact Hperm|]. split.
  - inversion Hhd; subst. apply str_ltb_leb. assumption.
  - eapply Forall_impl; [|exact Hprev]. intros c Hc. apply str_ltb_leb. exact Hc.
Qed.

Lemma find_release_most_recent_witness :
  get_releases Sample.feed_api = Ok Sample.feed_releases /\
  feed_candidates false Sample.feed_releases <> [] /\
  Forall (fun r => sort_key r <> None)
         (feed_candidates false Sample.feed_releases) /\
  exists latest,
    find_release Sample.feed_api false false None = Ok latest /\
    In latest (feed_candidates false Sample.feed_releases) /\
    (forall c, In c (feed_candidates false Sample.feed_releases) ->
               (key_str c <=? key_str latest)%string = true) /\
    ((2 <= length (feed_candidates false Sample.feed_releases))%nat ->
     exists prev rest,
       find_release Sample.feed_api true false None = Ok prev /\
       Permutation (latest :: prev :: rest)
                   (feed_candidates false Sample.feed_releases) /\
       (key_str prev <=? key_str latest)%string = true /\
       Forall (fun c => (key_str c <=? key_str prev)%string = true) rest).
Proof.
  assert (Hfeed : get_releases Sample.feed_api = Ok Sample.feed_releases)
    by reflexivity.
  assert (Hne : feed_candidates false Sample.feed_releases <> [])
    by (vm_compute; discriminate).
  assert (Hkeys : Forall (fun r => sort_key r <> None)
                         (feed_candidates false Sample.feed_releases))
    by (repeat constructor; vm_compute; discriminate).
  split; [exact Hfeed|]. split; [exact Hne|]. split; [exact Hkeys|].
  exact (find_release_most_recent Sample.feed_api false Sample.feed_releases
           Hfeed Hne Hkeys).
Defined.

(* ================================================================== *)
(** * More on the asset selector *)

Module MoreAssetSelector.

(** A name the bundle pattern accepts starts, up to case, with
    [firmware-<platform>-]. *)
Lemma bundle_matches_prefix (platform s : string) :
  bundle_matches platform s ->
  exists y, str_lower s
            = (str_lower ("firmware-" ++ platform ++ "-") ++ y)%string.
Proof.
  intros (p & m & x & tail & -> & Hp & _).
  exists (str_lower (m ++ x ++ tail)).
  rewrite str_lower_append. unfold ci_eq in Hp. rewrite Hp. reflexivity.
Qed.

End MoreAssetSelector.

Import MoreAssetSelector.

(** X19.  The four supported platforms do not take each other's bundles:
    a name that starts, in any case, with [firmware-<q>-] for a supported
    platform [q] is never matched for another supported platform [p], so
    no asset of that name is among the matches for [p]. *)
Theorem supported_platforms_do_not_overlap (p q pre rest : string) :
  In p SUPPORTED_PLATFORMS ->
  In q SUPPORTED_PLATFORMS ->
  p <> q ->
  ci_eq pre ("firmware-" ++ q ++ "-") ->
  re_match (asset_pattern p) (pre ++ rest) = false /\
  (forall release a,
      In a (platform_matches release p) ->
      asset_name a <> (pre ++ rest)%string).
Proof.
  intros Hp Hq Hne Hpre.
  assert (Hno : ~ bundle_matches p (pre ++ rest)).
  { intro Hm. apply bundle_matches_prefix in Hm as [y Hy].
    rewrite str_lower_append in Hy. unfold ci_eq in Hpre. rewrite Hpre in Hy.
    simpl in Hp, Hq.
    destruct Hp as [<-|[<-|[<-|[<-|[]]]]];
      destruct Hq as [<-|[<-|[<-|[<-|[]]]]];
      try (apply Hne; reflexivity); simpl in Hy; discriminate Hy. }
  split.
  - destruct (re_match (asset_pattern p) (pre ++ rest)) eqn:E; [|reflexivity].
    exfalso. apply Hno. apply asset_pattern_spec. exact E.
  - intros release a Ha Hn. apply platform_matches_spec in Ha as [_ Hm].
    rewrite Hn in Hm. exact (Hno Hm).
Qed.

Lemma supported_platforms_do_not_overlap_witness :
  In "esp32" SUPPORTED_PLATFORMS /\
  In "esp32s3" SUPPORTED_PLATFORMS /\
  "esp32" <> "esp32s3" /\
  ci_eq "Firmware-ESP32S3-" ("firmware-" ++ "esp32s3" ++ "-") /\
  re_match (asset_pattern "esp32") ("Firmware-ESP32S3-" ++ "v2.7-extra.ZIP")
  = false.
Proof.
  assert (Hp : In "esp32" SUPPORTED_PLATFORMS) by (simpl; auto).
  assert (Hq : In "esp32s3" SUPPORTED_PLATFORMS) by (simpl; auto).
  assert (Hne : "esp32" <> "esp32s3") by discriminate.
  assert (Hpre : ci_eq "Firmware-ESP32S3-" ("firmware-" ++ "esp32s3" ++ "-"))
    by reflexivity.
  split; [exact Hp|]. split; [exact Hq|]. split; [exact Hne|].
  split; [exact Hpre|].
  exact (proj1 (supported_platforms_do_not_overlap "esp32" "esp32s3"
                  "Firmware-ESP32S3-" "v2.7-extra.ZIP" Hp Hq Hne Hpre)).
Defined.

(* ================================================================== *)
(** * The cache paths *)

Module CacheFacts.

(** In front of a final [.zip], [.zip] starts nowhere but in the stem. *)
Lemma prefix_zip_append (c : ascii) (s : string) :
  String.prefix ".zip" (String c s) = false ->
  String.prefix ".zip" (String c s ++ ".zip") = false.
Proof.
  intro H.
  destruct (String.prefix ".zip" (String c s ++ ".zip")) eqn:E;
    [|reflexivity].
  exfalso. apply prefix_spec in E as [b Hb].
  destruct s as [|s1 [|s2 [|s3 rest]]]; simpl in Hb; try discriminate Hb.
  injection Hb as -> -> -> -> _.
  assert (Ht : String.prefix ".zip" (String "." (String "z" (String "i"
                 (String "p" rest)))) = true)
    by (apply prefix_spec; exists rest; reflexivity).
  congruence.
Qed.

(** Removing [.zip] from [stem.zip] leaves the stem, when the stem itself
    does not contain [.zip]. *)
Lemma replace_zip_suffix (stem : string) :
  str_in ".zip" stem = false ->
  str_replace ".zip" "" (stem ++ ".zip") = stem.
Proof.
  unfold str_replace. change (truthy ".zip") with true. cbv iota.
  induction stem as [|c s IH]; intro H.
  - reflexivity.
  - cbn [str_in] in H. apply orb_false_iff in H as [Hp Hs].
    change (String c s ++ ".zip")%string with (String c (s ++ ".zip")).
    cbn [replace_from].
    change (String c (s ++ ".zip")) with (String c s ++ ".zip")%string.
    rewrite (prefix_zip_append c s Hp). f_equal. apply IH. exact Hs.
Qed.

Lemma split_on_simple (sep : ascii) (s : string) :
  Forall (fun c => c <> sep) (list_ascii_of_string s) ->
  split_on sep s = [s].
Proof.
  induction s as [|c s IH]; simpl; intro H; [reflexivity|].
  inversion H as [|? ? Hc Hs]; subst.
  apply Ascii.eqb_neq in Hc. rewrite Hc, (IH Hs). reflexivity.
Qed.

Lemma root_of_simple (s : string) :
  Forall (fun c => c <> "/"%char) (list_ascii_of_string s) ->
  root_of s = None.
Proof.
  intro H. unfold root_of.
  destruct (String.prefix "/" s) eqn:E; [|reflexivity].
  exfalso. apply prefix_spec in E as [b ->]. simpl in H.
  inversion H as [|? ? Hc _]. congruence.
Qed.

(** Joining a single plain component appends it. *)
Lemma path_join_simple (p : Path) (s : string) :
  Forall (fun c => c <> "/"%char) (list_ascii_of_string s) ->
  s <> "" -> s <> "." ->
  path_join p s = mkPath (parts p ++ [s]).
Proof.
  intros Hs He Hd. unfold path_join, segment_parts.
  rewrite (root_of_simple s Hs), (split_on_simple "/" s Hs). simpl.
  apply truthy_true in He. apply String.eqb_neq in Hd.
  rewrite He, Hd. reflexivity.
Qed.

Lemma rfind_chr_none (c : ascii) (s : string) :
  Forall (fun d => d <> c) (list_ascii_of_string s) -> rfind_chr c s = None.
Proof.
  induction s as [|d s IH]; simpl; intro H; [reflexivity|].
  inversion H as [|? ? Hd Hs]; subst. rewrite (IH Hs).
  apply Ascii.eqb_neq in Hd. rewrite Hd. reflexivity.
Qed.

Lemma rfind_chr_last (c : ascii) (a b : string) :
  rfind_chr c b = None ->
  rfind_chr c (a ++ String c b) = Some (String.length a).
Proof.
  intro Hb. induction a as [|d a IH]; simpl.
  - rewrite Hb, Ascii.eqb_refl. reflexivity.
  - rewrite IH. reflexivity.
Qed.

(** The suffix of [base.last] is [.last]. *)
Lemma suffix_of_dotted (base last : string) :
  base <> "" -> last <> "" ->
  Forall (fun d => d <> "."%char) (list_ascii_of_string last) ->
  suffix_of (base ++ "." ++ last) = ("." ++ last)%string.
Proof.
  intros Hb Hl Hd. unfold suffix_of.
  change ("." ++ last)%string with (String "." last).
  rewrite (rfind_chr_last "." base last (rfind_chr_none "." last Hd)).
  rewrite length_append. simpl String.length.
  assert (H1 : (0 < String.length base)%nat)
    by (destruct base; [congruence|simpl; lia]).
  assert (H2 : (0 < String.length last)%nat)
    by (destruct last; [congruence|simpl; lia]).
  destruct (Nat.ltb_spec 0 (String.length base)); [|lia].
  destruct (Nat.ltb_spec (String.length base)
              (String.length base + S (String.length last) - 1)); [|lia].
  simpl andb. cbv iota.
  rewrite substring_skip_append.
  replace (String.length base + S (String.length last) - String.length base)%nat
    with (String.length (String "." last)) by (simpl; lia).
  apply substring_0_all.
Qed.

Lemma suffix_of_plain (nm : string) :
  Forall (fun d => d <> "."%char) (list_ascii_of_string nm) ->
  suffix_of nm = "".
Proof.
  intro H. unfold suffix_of. rewrite (rfind_chr_none "." nm H). reflexivity.
Qed.

Lemma pure_name_joined (l : list string) (s : string) :
  Forall (fun c => c <> "/"%char) (list_ascii_of_string s) ->
  pure_name (mkPath (l ++ [s])) = s.
Proof.
  intro Hs. unfold pure_name, name. simpl parts.
  destruct l as [|a l]; simpl app.
  - simpl last. rewrite (root_of_simple s Hs). reflexivity.
  - destruct (l ++ [s]) as [|b l'] eqn:E;
      [destruct l; discriminate|].
    rewrite <- E. apply (last_last (a :: l) s "").
Qed.

Lemma forall_append (P : ascii -> Prop) (a b : string) :
  Forall P (list_ascii_of_string (a ++ b))
  <-> Forall P (list_ascii_of_string a) /\ Forall P (list_ascii_of_string b).
Proof. rewrite list_of_append. apply Forall_app. Qed.

End CacheFacts.

Import CacheFacts.

Module CachePaths.

Lemma append_inj_l (a b c : string) : (a ++ b = a ++ c)%string -> b = c.
Proof. induction a; simpl; intro H; [exact H|]. injection H as H. auto. Qed.

Lemma no_dot_no_zip (stem : string) :
  Forall (fun d => d <> "."%char) (list_ascii_of_string stem) ->
  str_in ".zip" stem = false.
Proof.
  intro H. destruct (str_in ".zip" stem) eqn:E; [|reflexivity].
  exfalso. apply str_in_spec in E as (a & b & ->).
  apply forall_append in H as [_ H]. simpl in H.
  inversion H as [|? ? Hd _]. congruence.
Qed.

(** The two cache paths of an asset [stem.zip] whose stem is a plain
    component. *)
Lemma cache_paths_of_stem (output_dir : Path) (stem : string) :
  stem <> "" -> stem <> "." ->
  Forall (fun c => c <> "/"%char) (list_ascii_of_string stem) ->
  str_in ".zip" stem = false ->
  cache_outdir output_dir (stem ++ ".zip")
  = mkPath (parts output_dir ++ [stem]) /\
  cache_zip_path output_dir (stem ++ ".zip")
  = Some (mkPath (parts output_dir
                  ++ [(if truthy (suffix_of stem)
                       then String.substring
                              0 (String.length stem
                                 - String.length (suffix_of stem)) stem
                            ++ ".zip"
                       else stem ++ ".zip")%string])).
Proof.
  intros He Hd Hs Hz.
  assert (Ho : cache_outdir output_dir (stem ++ ".zip")
               = mkPath (parts output_dir ++ [stem])).
  { unfold cache_outdir. rewrite (replace_zip_suffix stem Hz).
    apply path_join_simple; assumption. }
  split; [exact Ho|].
  unfold cache_zip_path, with_suffix. rewrite Ho.
  rewrite (pure_name_joined (parts output_dir) stem Hs).
  apply truthy_true in He. rewrite He. simpl parts.
  rewrite removelast_last. reflexivity.
Qed.

Lemma dotted_stem (base last : string) :
  base <> "" ->
  (base ++ "." ++ last)%string <> "" /\ (base ++ "." ++ last)%string <> ".".
Proof.
  intro Hb. destruct base as [|c base]; [congruence|]. simpl. split.
  - discriminate.
  - intro H. injection H as _ H. destruct base; discriminate.
Qed.

(** For an asset [base.last.zip] the archive is cached as [base.zip]. *)
Lemma cache_paths_dotted (output_dir : Path) (base last : string) :
  base <> "" -> last <> "" ->
  Forall (fun c => c <> "/"%char) (list_ascii_of_string (base ++ "." ++ last)) ->
  Forall (fun c => c <> "."%char) (list_ascii_of_string last) ->
  str_in ".zip" (base ++ "." ++ last) = false ->
  cache_outdir output_dir ((base ++ "." ++ last) ++ ".zip")
  = mkPath (parts output_dir ++ [(base ++ "." ++ last)%string]) /\
  cache_zip_path output_dir ((base ++ "." ++ last) ++ ".zip")
  = Some (mkPath (parts output_dir ++ [(base ++ ".zip")%string])).
Proof.
  intros Hb Hl Hs Hd Hz.
  destruct (dotted_stem base last Hb) as [He Hdot].
  destruct (cache_paths_of_stem output_dir _ He Hdot Hs Hz) as [Ho Hzip].
  split; [exact Ho|]. rewrite Hzip.
  rewrite (suffix_of_dotted base last Hb Hl Hd).
  change (truthy ("." ++ last)) with true. cbv iota.
  rewrite length_append.
  replace (String.length base + String.length ("." ++ last)
           - String.length ("." ++ last))%nat
    with (String.length base) by lia.
  rewrite substring_0_append. reflexivity.
Qed.

End CachePaths.

Import CachePaths.

(** X20.  For an asset named [stem.zip] whose stem has no dot (and no
    slash), the bundle is extracted to [<output_dir>/stem] and the archive
    is kept as [<output_dir>/stem.zip]. *)
Theorem cache_paths_of_plain_asset (output_dir : Path) (stem : string) :
  stem <> "" ->
  Forall (fun c => c <> "/"%char) (list_ascii_of_string stem) ->
  Forall (fun c => c <> "."%char) (list_ascii_of_string stem) ->
  cache_outdir output_dir (stem ++ ".zip")
  = mkPath (parts output_dir ++ [stem]) /\
  cache_zip_path output_dir (stem ++ ".zip")
  = Some (mkPath (parts output_dir ++ [(stem ++ ".zip")%string])).
Proof.
  intros He Hs Hd.
  assert (Hdot : stem <> ".").
  { intros ->. simpl in Hd. inversion Hd. congruence. }
  destruct (cache_paths_of_stem output_dir stem He Hdot Hs (no_dot_no_zip stem Hd))
    as [Ho Hzip].
  split; [exact Ho|]. rewrite Hzip, (suffix_of_plain stem Hd). reflexivity.
Qed.

Lemma cache_paths_of_plain_asset_witness :
  "firmware-esp32s3" <> "" /\
  cache_zip_path (mkPath ["/"; "srv"; "cache"]) ("firmware-esp32s3" ++ ".zip")
  = Some (mkPath (parts (mkPath ["/"; "srv"; "cache"])
                  ++ [("firmware-esp32s3" ++ ".zip")%string])).
Proof.
  assert (He : "firmware-esp32s3" <> "") by discriminate.
  assert (Hs : Forall (fun c => c <> "/"%char)
                      (list_ascii_of_string "firmware-esp32s3"))
    by (repeat constructor; discriminate).
  assert (Hd : Forall (fun c => c <> "."%char)
                      (list_ascii_of_string "firmware-esp32s3"))
    by (repeat constructor; discriminate).
  split; [exact He|].
  exact (proj2 (cache_paths_of_plain_asset (mkPath ["/"; "srv"; "cache"])
                  "firmware-esp32s3" He Hs Hd)).
Defined.

(** X21.  For an asset named [base.last.zip], where [last] has no dot, the
    bundle is extracted to [<output_dir>/base.last] but the archive is kept
    as [<output_dir>/base.zip]: [with_suffix] takes [.last] for the suffix
    to replace. *)
Theorem cache_paths_of_dotted_asset (output_dir : Path) (base last : string) :
  base <> "" -> last <> "" ->
  Forall (fun c => c <> "/"%char) (list_ascii_of_string (base ++ "." ++ last)) ->
  Forall (fun c => c <> "."%char) (list_ascii_of_string last) ->
  str_in ".zip" (base ++ "." ++ last) = false ->
  cache_outdir output_dir ((base ++ "." ++ last) ++ ".zip")
  = mkPath (parts output_dir ++ [(base ++ "." ++ last)%string]) /\
  cache_zip_path output_dir ((base ++ "." ++ last) ++ ".zip")
  = Some (mkPath (parts output_dir ++ [(base ++ ".zip")%string])).
Proof. apply cache_paths_dotted. Qed.

Lemma cache_paths_of_dotted_asset_witness :
  "firmware-esp32s3-2.7" <> "" /\ "11" <> "" /\
  cache_outdir (mkPath ["/"; "srv"; "cache"])
               (("firmware-esp32s3-2.7" ++ "." ++ "11") ++ ".zip")
  = mkPath ["/"; "srv"; "cache"; "firmware-esp32s3-2.7.11"] /\
  cache_zip_path (mkPath ["/"; "srv"; "cache"])
                 (("firmware-esp32s3-2.7" ++ "." ++ "11") ++ ".zip")
  = Some (mkPath ["/"; "srv"; "cache"; "firmware-esp32s3-2.7.zip"]).
Proof.
  assert (Hb : "firmware-esp32s3-2.7" <> "") by discriminate.
  assert (Hl : "11" <> "") by discriminate.
  assert (Hs : Forall (fun c => c <> "/"%char)
                      (list_ascii_of_string ("firmware-esp32s3-2.7" ++ "." ++ "11")))
    by (repeat constructor; discriminate).
  assert (Hd : Forall (fun c => c <> "."%char) (list_ascii_of_string "11"))
    by (repeat constructor; discriminate).
  assert (Hz : str_in ".zip" ("firmware-esp32s3-2.7" ++ "." ++ "11") = false)
    by reflexivity.
  split; [exact Hb|]. split; [exact Hl|].
  exact (cache_paths_of_dotted_asset (mkPath ["/"; "srv"; "cache"])
           "firmware-esp32s3-2.7" "11" Hb Hl Hs Hd Hz).
Defined.

(* ================================================================== *)
(** * The download and extract steps *)

Module FetchFacts.

Section Steps.
Variable http_download : string -> Path -> option exn.
Variable extractall : Path -> Path -> option exn.

(** With the archive on the disk nothing is downloaded; the bundle is
    extracted from that archive when its directory is missing. *)
Lemma main_fetch_cached_archive
      (verbose : bool) (disk : Disk) (asset_url : string)
      (outdir zip_path : Path) (w : World) :
  In zip_path disk ->
  fst (main_fetch http_download extractall verbose disk asset_url outdir
                  zip_path w)
  = if exists_on disk outdir then Ok ([], disk)
    else match extractall zip_path outdir with
         | Some e => Raise e
         | None => Ok ([Extract zip_path outdir],
                       outdir :: parents outdir ++ disk)
         end.
Proof.
  intro Hz. apply exists_on_spec in Hz.
  unfold main_fetch, bind, print, ret, raise. rewrite Hz. cbn [negb].
  destruct verbose; cbn [fst snd]; destruct (exists_on disk outdir);
    cbn [negb fst snd app]; try reflexivity;
    destruct (extractall zip_path outdir); reflexivity.
Qed.

(** Without the archive the download comes first; if it fails, so does the
    step, and nothing is extracted. *)
Lemma main_fetch_missing_archive
      (verbose : bool) (disk : Disk) (asset_url : string)
      (outdir zip_path : Path) (w : World) :
  ~ In zip_path disk ->
  fst (main_fetch http_download extractall verbose disk asset_url outdir
                  zip_path w)
  = match http_download asset_url zip_path with
    | Some e => Raise e
    | None =>
        if exists_on (zip_path :: parents zip_path ++ disk) outdir
        then Ok ([Download asset_url zip_path],
                 zip_path :: parents zip_path ++ disk)
        else match extractall zip_path outdir with
             | Some e => Raise e
             | None =>
                 Ok ([Download asset_url zip_path; Extract zip_path outdir],
                     outdir :: parents outdir
                            ++ zip_path :: parents zip_path ++ disk)
             end
    end.
Proof.
  intro Hz. apply exists_on_false in Hz.
  unfold main_fetch, bind, print, ret, raise. rewrite Hz. cbn [negb].
  destruct verbose; cbn [fst snd];
    destruct (http_download asset_url zip_path);
    cbn [fst snd]; try reflexivity;
    destruct (exists_on (zip_path :: parents zip_path ++ disk) outdir);
    cbn [negb fst snd app]; try reflexivity;
    destruct (extractall zip_path outdir); reflexivity.
Qed.

Lemma in_dec_path (p : Path) (disk : Disk) : In p disk \/ ~ In p disk.
Proof.
  destruct (exists_on disk p) eqn:E.
  - left. apply exists_on_spec. exact E.
  - right. apply exists_on_false. exact E.
Qed.

End Steps.

End FetchFacts.

Import FetchFacts.

(** X22.  When the download and extract steps succeed, the archive and the
    directory are on the disk and nothing that was there is gone; running
    the steps again on that disk, for any URL, downloads and extracts
    nothing.  An archive that is already there is never downloaded again,
    and a failed download stops the steps before anything is extracted. *)
Theorem main_fetch_uses_cache
        (http_download : string -> Path -> option exn)
        (extractall : Path -> Path -> option exn)
        (verbose : bool) (disk : Disk) (asset_url : string)
        (outdir zip_path : Path) (w : World) :
  (forall actions disk',
      fst (main_fetch http_download extractall verbose disk asset_url outdir
                      zip_path w) = Ok (actions, disk') ->
      In zip_path disk' /\ In outdir disk' /\
      (forall p, In p disk -> In p disk') /\
      (forall verbose' url' w',
          fst (main_fetch http_download extractall verbose' disk' url' outdir
                          zip_path w') = Ok ([], disk')) /\
      (In zip_path disk -> forall url dest, ~ In (Download url dest) actions)) /\
  (forall e, ~ In zip_path disk ->
             http_download asset_url zip_path = Some e ->
             fst (main_fetch http_download extractall verbose disk asset_url
                             outdir zip_path w) = Raise e).
Proof.
  split.
  - intros actions disk' H.
    assert (Hgoal : In zip_path disk' /\ In outdir disk' /\
                    (forall p, In p disk -> In p disk') /\
                    (In zip_path disk ->
                     forall url dest, ~ In (Download url dest) actions)).
    { destruct (in_dec_path zip_path disk) as [Hz|Hz].
      - rewrite (main_fetch_cached_archive _ _ _ _ _ _ _ _ Hz) in H.
        destruct (exists_on disk outdir) eqn:Ho.
        + injection H as <- <-. apply exists_on_spec in Ho.
          split; [exact Hz|]. split; [exact Ho|]. split; [auto|].
          intros _ url dest [].
        + destruct (extractall zip_path outdir); [discriminate|].
          injection H as <- <-.
          split; [right; apply in_or_app; right; exact Hz|].
          split; [left; reflexivity|].
          split; [intros p Hp; right; apply in_or_app; right; exact Hp|].
          intros _ url dest [Hd|[]]. discriminate Hd.
      - rewrite (main_fetch_missing_archive _ _ _ _ _ _ _ _ Hz) in H.
        destruct (http_download asset_url zip_path); [discriminate|].
        destruct (exists_on (zip_path :: parents zip_path ++ disk) outdir)
          eqn:Ho.
        + injection H as <- <-. apply exists_on_spec in Ho.
          split; [left; reflexivity|]. split; [exact Ho|].
          split; [intros p Hp; right; apply in_or_app; right; exact Hp|].
          intro Hc. contradiction.
        + destruct (extractall zip_path outdir); [discriminate|].
          injection H as <- <-.
          split; [right; apply in_or_app; right; left; reflexivity|].
          split; [left; reflexivity|].
          split; [intros p Hp; right; apply in_or_app; right; right;
                  apply in_or_app; right; exact Hp|].
          intro Hc. contradiction. }
    destruct Hgoal as (Hz & Ho & Hincl & Hnd).
    split; [exact Hz|]. split; [exact Ho|]. split; [exact Hincl|].
    split; [|exact Hnd].
    intros verbose' url' w'.
    rewrite (main_fetch_cached_archive _ _ _ _ _ _ _ _ Hz).
    apply exists_on_spec in Ho. rewrite Ho. reflexivity.
  - intros e Hz He.
    rewrite (main_fetch_missing_archive _ _ _ _ _ _ _ _ Hz), He. reflexivity.
Qed.

(** X23.  Two assets [base.a.zip] and [base.b.zip] that differ only in the
    last dotted part of the stem are extracted to different directories
    but share one archive path.  So once the archive of the first is on the
    disk, fetching the second downloads nothing and extracts the first
    one's archive into the second one's directory. *)
Theorem cache_archive_shared_by_assets
        (output_dir : Path) (base last1 last2 : string) :
  base <> "" -> last1 <> "" -> last2 <> "" -> last1 <> last2 ->
  Forall (fun c => c <> "/"%char) (list_ascii_of_string (base ++ "." ++ last1)) ->
  Forall (fun c => c <> "/"%char) (list_ascii_of_string (base ++ "." ++ last2)) ->
  Forall (fun c => c <> "."%char) (list_ascii_of_string last1) ->
  Forall (fun c => c <> "."%char) (list_ascii_of_string last2) ->
  str_in ".zip" (base ++ "." ++ last1) = false ->
  str_in ".zip" (base ++ "." ++ last2) = false ->
  cache_zip_path output_dir ((base ++ "." ++ last1) ++ ".zip")
  = cache_zip_path output_dir ((base ++ "." ++ last2) ++ ".zip") /\
  cache_outdir output_dir ((base ++ "." ++ last1) ++ ".zip")
  <> cache_outdir output_dir ((base ++ "." ++ last2) ++ ".zip") /\
  (forall http_download extractall verbose disk url2 w zip,
      cache_zip_path output_dir ((base ++ "." ++ last1) ++ ".zip") = Some zip ->
      In zip disk ->
      ~ In (cache_outdir output_dir ((base ++ "." ++ last2) ++ ".zip")) disk ->
      extractall zip (cache_outdir output_dir ((base ++ "." ++ last2) ++ ".zip"))
      = None ->
      exists disk',
        fst (main_fetch http_download extractall verbose disk url2
               (cache_outdir output_dir ((base ++ "." ++ last2) ++ ".zip"))
               zip w)
        = Ok ([Extract zip
                 (cache_outdir output_dir ((base ++ "." ++ last2) ++ ".zip"))],
              disk')).
Proof.
  intros Hb H1 H2 Hne Hs1 Hs2 Hd1 Hd2 Hz1 Hz2.
  destruct (cache_paths_dotted output_dir base last1 Hb H1 Hs1 Hd1 Hz1)
    as [Ho1 Hp1].
  destruct (cache_paths_dotted output_dir base last2 Hb H2 Hs2 Hd2 Hz2)
    as [Ho2 Hp2].
  split; [rewrite Hp1, Hp2; reflexivity|]. split.
  - rewrite Ho1, Ho2. intro H. injection H as H.
    apply app_inj_tail in H as [_ H].
    apply append_inj_l in H. simpl in H. injection H as H. contradiction.
  - intros http_download extractall verbose disk url2 w zip Hzip Hin Hout Hex.
    eexists.
    rewrite (main_fetch_cached_archive _ _ _ _ _ _ _ _ Hin).
    apply exists_on_false in Hout. rewrite Hout, Hex. reflexivity.
Qed.

Lemma cache_archive_shared_by_assets_witness :
  "11" <> "12" /\
  cache_zip_path (mkPath ["/"; "srv"; "cache"])
                 (("firmware-esp32s3-2.7" ++ "." ++ "11") ++ ".zip")
  = cache_zip_path (mkPath ["/"; "srv"; "cache"])
                   (("firmware-esp32s3-2.7" ++ "." ++ "12") ++ ".zip") /\
  cache_outdir (mkPath ["/"; "srv"; "cache"])
               (("firmware-esp32s3-2.7" ++ "." ++ "11") ++ ".zip")
  <> cache_outdir (mkPath ["/"; "srv"; "cache"])
                  (("firmware-esp32s3-2.7" ++ "." ++ "12") ++ ".zip").
Proof.
  assert (Hb : "firmware-esp32s3-2.7" <> "") by discriminate.
  assert (H1 : "11" <> "") by discriminate.
  assert (H2 : "12" <> "") by discriminate.
  assert (Hne : "11" <> "12") by discriminate.
  assert (Hs1 : Forall (fun c => c <> "/"%char)
                  (list_ascii_of_string ("firmware-esp32s3-2.7" ++ "." ++ "11")))
    by (repeat constructor; discriminate).
  assert (Hs2 : Forall (fun c => c <> "/"%char)
                  (list_ascii_of_string ("firmware-esp32s3-2.7" ++ "." ++ "12")))
    by (repeat constructor; discriminate).
  assert (Hd1 : Forall (fun c => c <> "."%char) (list_ascii_of_string "11"))
    by (repeat constructor; discriminate).
  assert (Hd2 : Forall (fun c => c <> "."%char) (list_ascii_of_string "12"))
    by (repeat constructor; discriminate).
  assert (Hz1 : str_in ".zip" ("firmware-esp32s3-2.7" ++ "." ++ "11") = false)
    by reflexivity.
  assert (Hz2 : str_in ".zip" ("firmware-esp32s3-2.7" ++ "." ++ "12") = false)
    by reflexivity.
  pose proof (cache_archive_shared_by_assets (mkPath ["/"; "srv"; "cache"])
                "firmware-esp32s3-2.7" "11" "12"
                Hb H1 H2 Hne Hs1 Hs2 Hd1 Hd2 Hz1 Hz2) as (Hp & Ho & _).
  split; [exact Hne|]. split; [exact Hp|exact Ho].
Defined.
